(** * F1 driver replay: synchronisation engine and playback controller

    A shallow embedding of [f1_driver_tracker.py]: the loading and
    resampling of the telemetry ([load_and_synchronize_data]), the widget
    callbacks ([pause_callback], [reset_callback], [slider_update],
    [ghost_mode_callback]) and the animation step ([update]).

    Python floats are modelled as real numbers: arithmetic is exact, there
    is no rounding, no overflow and no NaN.  Truncation ([int]) and the
    length of [np.arange] go through [Zfloor] and [Zceil]. *)

From Stdlib Require Import Reals RList Lra Lia ZArith.
From stdpp Require Import base option list sorting strings.

(** ** Python values *)

Inductive exn : Type :=
| ValueError (msg : string)
| IndexError
| ZeroDivisionError.

(** A call either raises or returns. *)
Inductive result (A : Type) : Type :=
| Raise (e : exn)
| Return (a : A).
Arguments Raise {A} e.
Arguments Return {A} a.

Definition bind {A B : Type} (m : result A) (k : A -> result B) : result B :=
  match m with
  | Raise e => Raise e
  | Return a => k a
  end.

Declare Scope py_scope.
Delimit Scope py_scope with py.
Notation "'let*' x ':=' m 'in' k" := (bind m (fun x => k))
  (at level 10, x name, m at level 100, k at level 200) : py_scope.
Notation "'let*' ' p ':=' m 'in' k" := (bind m (fun x => match x with p => k end))
  (at level 10, p pattern, m at level 100, k at level 200) : py_scope.

(** [a[i]] for a non-negative index: out of range raises [IndexError]. *)
Definition getitem {A : Type} (a : list A) (i : nat) : result A :=
  match a !! i with
  | Some v => Return v
  | None => Raise IndexError
  end.

(** Comparisons of floats, as decisions usable in [if decide (...)]. *)
#[global] Instance Rlt_decision (x y : R) : Decision (x < y)%R := Rlt_dec x y.
#[global] Instance Rle_decision (x y : R) : Decision (x <= y)%R := Rle_dec x y.
#[global] Instance Rgt_decision (x y : R) : Decision (x > y)%R := Rgt_dec x y.
#[global] Instance Rge_decision (x y : R) : Decision (x >= y)%R := Rge_dec x y.
#[global] Instance Req_decision : EqDecision R := Req_dec_T.

(** [int(x)]: truncation toward zero. *)
Definition int (x : R) : Z :=
  if decide (0 <= x)%R then Zfloor x else Zceil x.

(** ** numpy *)
Module np.

(** [np.zeros(n)]. *)
Definition zeros (n : nat) : list R := replicate n 0%R.

(** [np.arange(start, stop, step)]: [ceil((stop - start) / step)] values
    [start + i * step]; no value when that count is not positive. *)
Definition arange (start stop step : R) : list R :=
  let n := Z.to_nat (Zceil ((stop - start) / step)) in
  (fun i : nat => (start + INR i * step)%R) <$> seq 0 n.

(** The index search of [np.interp]: [-1] when the key is below the first
    sample point, [len] when it is above the last one, otherwise the
    linear scan [for (i = 0; i < len && key >= arr[i]; ++i); return i - 1].
    On sorted sample points the bisection that numpy uses for long arrays
    returns this index too. *)
Fixpoint scan (key : R) (arr : list R) : nat :=
  match arr with
  | [] => 0
  | a :: arr' => if decide (key >= a)%R then S (scan key arr') else 0
  end.

Definition binary_search (key : R) (arr : list R) : Z :=
  match arr, last arr with
  | a0 :: _, Some an =>
      if decide (key > an)%R then Z.of_nat (length arr)
      else if decide (key < a0)%R then (-1)%Z
      else (Z.of_nat (scan key arr) - 1)%Z
  | _, _ => (-1)%Z
  end.

(** One value of [np.interp(x, xp, fp)] with the default [left = fp[0]]
    and [right = fp[-1]]; [xp] and [fp] are non-empty, of one length. *)
Definition interp_at (xp fp : list R) (x_val : R) : option R :=
  let lenxp := length xp in
  let j := binary_search x_val xp in
  if decide (j = (-1)%Z) then fp !! 0%nat
  else if decide (j = Z.of_nat lenxp) then last fp
  else
    let j := Z.to_nat j in
    if decide (j = (lenxp - 1)%nat) then fp !! j
    else
      xj ← xp !! j;
      if decide (xj = x_val) then fp !! j
      else
        xj1 ← xp !! S j;
        yj ← fp !! j;
        yj1 ← fp !! S j;
        let slope := ((yj1 - yj) / (xj1 - xj))%R in
        Some (slope * (x_val - xj) + yj)%R.

(** [np.interp(x, xp, fp)]. *)
Definition interp (x xp fp : list R) : result (list R) :=
  if decide (length xp = 0%nat) then
    Raise (ValueError "array of sample points is empty")
  else if decide (length fp ≠ length xp) then
    Raise (ValueError "fp and xp are not of the same length.")
  else
    match mapM (interp_at xp fp) x with
    | Some r => Return r
    | None => Raise IndexError
    end.

Definition sqrt (x : R) : R := R_sqrt.sqrt x.

End np.

(** ** pandas *)

(** A [Timedelta] is a count of nanoseconds. *)
Module Timedelta.
Definition t : Type := Z.

(** The seconds of a duration at full resolution, as
    [Series.dt.total_seconds()] gives them for each element of a column
    (line 79). *)
Definition total_seconds (d : t) : R := (IZR d / 1000000000)%R.

(** The method [total_seconds()] of a single [Timedelta] (line 100): it
    adds up days, seconds and microseconds, so the nanoseconds beyond the
    last whole microsecond are dropped. *)
Definition scalar_total_seconds (d : t) : R := (IZR (d / 1000) / 1000000)%R.
End Timedelta.

(** ** The session data *)

(** One row of a lap's telemetry: elapsed time, position and speed. *)
Record Sample : Type := {
  Time : Timedelta.t;
  X : R;
  Y : R;
  Speed : R
}.

(** One row of [session.laps].  [LapTime] is [None] for [NaT];
    [get_telemetry] raises, returns [None], or returns the rows of the
    telemetry frame (no row: an empty frame). *)
Module lap.
Record t : Type := {
  Driver : string;
  Team : string;
  LapNumber : Z;
  LapTime : option Timedelta.t;
  get_telemetry : result (option (list Sample))
}.
End lap.

(** What the code reads of a loaded session: the laps and the two colour
    lookups of [fastf1.plotting], either of which may raise. *)
Record Session : Type := {
  laps : list lap.t;
  get_driver_color : string -> result string;
  get_team_color : string -> result string
}.

(** The dictionary built per driver at the end of the load. *)
Record Data : Type := {
  Driver : string;
  Color : string;
  X_interp : list R;
  Y_interp : list R;
  Speed_interp : list R;
  LapTime : option Timedelta.t;
  CumulativeDistance : list R
}.

(** The progress slider: its value and whether it notifies its observers. *)
Record Slider : Type := {
  val : R;
  eventson : bool
}.

(** ** Configuration and the module's global state *)

Definition NUM_DRIVERS : nat := 10.
Definition FPS : R := 90.

Record Globals : Type := {
  all_interpolated_data : list Data;
  current_drivers_data : list Data;
  current_frame : Z;
  total_seconds : R;
  times : list R;
  is_paused : bool;
  slider_active : bool;
  ghost_mode_on : bool;
  progress_slider : Slider
}.

(** The values the module assigns before the load; the slider is created
    with [valinit=0]. *)
Definition initial : Globals := {|
  all_interpolated_data := [];
  current_drivers_data := [];
  current_frame := 0;
  total_seconds := 0;
  times := [];
  is_paused := false;
  slider_active := false;
  ghost_mode_on := false;
  progress_slider := {| val := 0; eventson := true |}
|}.

(** ** 2. Data loading and synchronisation *)

Local Open Scope py_scope.

(** [laps[laps['LapTime'].notna()]]. *)
Definition notna (ls : list lap.t) : list lap.t :=
  filter (fun l => is_Some (lap.LapTime l)) ls.

Definition lap_time (l : lap.t) : Timedelta.t := default 0%Z (lap.LapTime l).

(** [laps.groupby('Driver')['LapTime'].idxmin()]: per driver, in the order
    of the driver keys, the first of the driver's laps of least lap time. *)
Definition string_le (a b : string) : Prop := String.leb a b = true.
#[global] Instance string_le_dec : RelDecision string_le.
Proof. intros a b. unfold string_le. apply _. Defined.

Definition driver_keys (ls : list lap.t) : list string :=
  merge_sort string_le (remove_dups (lap.Driver <$> ls)).

Definition idxmin (ls : list lap.t) : option lap.t :=
  match ls with
  | [] => None
  | l :: ls' =>
      Some (foldl (fun m v => if decide (lap_time v < lap_time m)%Z then v else m) l ls')
  end.

Definition fastest_per_driver (ls : list lap.t) : list lap.t :=
  omap (fun d => idxmin (filter (fun l => lap.Driver l = d) ls)) (driver_keys ls).

(** [.sort_values(by='LapTime')]: ascending lap times, by insertion, so
    that laps of equal lap time keep the order they had.  pandas sorts
    with numpy's quicksort, which keeps that order on short frames and
    need not on longer ones; no property below depends on the order among
    equal lap times. *)
Definition lap_time_le (a b : lap.t) : Prop := (lap_time a <= lap_time b)%Z.
#[global] Instance lap_time_le_dec : RelDecision lap_time_le.
Proof. intros a b. unfold lap_time_le. apply _. Defined.

Fixpoint insert_by_lap_time (l : lap.t) (ls : list lap.t) : list lap.t :=
  match ls with
  | [] => [l]
  | l' :: ls' =>
      if decide (lap_time_le l l') then l :: l' :: ls'
      else l' :: insert_by_lap_time l ls'
  end.

Definition sort_values (ls : list lap.t) : list lap.t :=
  foldr insert_by_lap_time [] ls.

Definition fastest_laps (ls : list lap.t) : list lap.t :=
  sort_values (fastest_per_driver ls).

(** The laps followed during the replay: [fastest_laps.head(NUM_DRIVERS)]
    of the laps with a lap time. *)
Definition drivers_to_track (session : Session) : list lap.t :=
  take NUM_DRIVERS (fastest_laps (notna (laps session))).

(** A [for] loop whose body may raise. *)
Fixpoint for_each {S I : Type} (body : S -> I -> result S) (s : S) (items : list I)
  : result S :=
  match items with
  | [] => Return s
  | i :: items' => let* s' := body s i in for_each body s' items'
  end.

(** The largest of [a :: l]. *)
Definition list_max (a : Z) (l : list Z) : Z := foldl Z.max a l.

(** 2b. [interpolate_telemetry]. *)
Definition interpolate_telemetry (telemetry : list Sample) (time_index : list R)
  : result (list R * list R * list R) :=
  let tel_seconds := (fun s => Timedelta.total_seconds (Time s)) <$> telemetry in
  let* x_interp := np.interp time_index tel_seconds (X <$> telemetry) in
  let* y_interp := np.interp time_index tel_seconds (Y <$> telemetry) in
  let* speed_interp := np.interp time_index tel_seconds (Speed <$> telemetry) in
  Return (x_interp, y_interp, speed_interp).

(** The pre-fetch loop: a lap whose telemetry raises, is [None] or is empty
    adds nothing to the two lists. *)
Definition prefetch_step (acc : list Timedelta.t * list (lap.t * list Sample))
    (row : lap.t) : list Timedelta.t * list (lap.t * list Sample) :=
  let '(max_time_list, temp_raw_telemetry_list) := acc in
  match lap.get_telemetry row with
  | Raise _ => acc
  | Return None => acc
  | Return (Some []) => acc
  | Return (Some (s :: tel')) =>
      (max_time_list ++ [list_max (Time s) (Time <$> tel')],
       temp_raw_telemetry_list ++ [(row, s :: tel')])
  end.

(** The loop over [drivers_to_track.iterrows()]. *)
Definition prefetch (rows : list lap.t)
  : list Timedelta.t * list (lap.t * list Sample) :=
  foldl prefetch_step ([], []) rows.

(** The driver's colour, else the team's, else white. *)
Definition resolve_color (session : Session) (row : lap.t) : string :=
  match get_driver_color session (lap.Driver row) with
  | Return color => color
  | Raise _ =>
      match get_team_color session (lap.Team row) with
      | Return color => color
      | Raise _ => "#FFFFFF"
      end
  end.

(** The body of the loop that fills [cumulative_distances]. *)
Definition distance_step (x_interp y_interp cumulative_distances : list R) (i : nat)
  : result (list R) :=
  let* xi := getitem x_interp i in
  let* xi1 := getitem x_interp (i - 1) in
  let dx := (xi - xi1)%R in
  let* yi := getitem y_interp i in
  let* yi1 := getitem y_interp (i - 1) in
  let dy := (yi - yi1)%R in
  let* prev := getitem cumulative_distances (i - 1) in
  Return (<[i := (prev + np.sqrt (dx ^ 2 + dy ^ 2))%R]> cumulative_distances).

(** [cumulative_distances = np.zeros(len(x_interp))], then the loop over
    [range(1, len(x_interp))]. *)
Definition accumulate_distances (x_interp y_interp : list R) : result (list R) :=
  for_each (distance_step x_interp y_interp)
    (np.zeros (length x_interp)) (seq 1 (length x_interp - 1)).

(** 2c. The body of the loop over [temp_raw_telemetry_list].  The
    dictionary [all_lap_telemetry], which is written here and read nowhere,
    is left out. *)
Definition synchronize_step (session : Session) (times : list R)
    (all_interpolated_data : list Data) (item : lap.t * list Sample)
  : result (list Data) :=
  let '(row, tel) := item in
  let driver := lap.Driver row in
  let* '(x_interp, y_interp, speed_interp) := interpolate_telemetry tel times in
  let color := resolve_color session row in
  let* cumulative_distances := accumulate_distances x_interp y_interp in
  let data := {|
    Driver := driver;
    Color := color;
    X_interp := x_interp;
    Y_interp := y_interp;
    Speed_interp := speed_interp;
    LapTime := lap.LapTime row;
    CumulativeDistance := cumulative_distances
  |} in
  Return (all_interpolated_data ++ [data]).

(** [load_and_synchronize_data], on the globals [g]. *)
Definition load_and_synchronize_data (session : Session) (g : Globals)
  : result Globals :=
  let laps := notna (laps session) in
  if decide (length laps = 0%nat) then
    Raise (ValueError "No valid laps found in session data.")
  else
    let '(max_time_list, temp_raw_telemetry_list) :=
      prefetch (drivers_to_track session) in
    match max_time_list with
    | [] => Raise (ValueError "No valid telemetry data found for the top drivers.")
    | m :: max_time_list' =>
        let total_seconds := Timedelta.scalar_total_seconds (list_max m max_time_list') in
        let times := np.arange 0 total_seconds (1 / FPS) in
        let* all_interpolated_data :=
          for_each (synchronize_step session times)
            (all_interpolated_data g) temp_raw_telemetry_list in
        if decide (length all_interpolated_data = 0%nat) then
          Raise (ValueError "No driver data was successfully loaded.")
        else
          Return {|
            all_interpolated_data := all_interpolated_data;
            current_drivers_data := all_interpolated_data;
            current_frame := current_frame g;
            total_seconds := total_seconds;
            times := times;
            is_paused := is_paused g;
            slider_active := slider_active g;
            ghost_mode_on := ghost_mode_on g;
            progress_slider := progress_slider g
          |}
    end.

(** ** 4. Widget callbacks *)

(** Assignments to one global. *)

Definition set_current_frame (v : Z) (g : Globals) : Globals := {|
  all_interpolated_data := all_interpolated_data g;
  current_drivers_data := current_drivers_data g;
  current_frame := v;
  total_seconds := total_seconds g;
  times := times g;
  is_paused := is_paused g;
  slider_active := slider_active g;
  ghost_mode_on := ghost_mode_on g;
  progress_slider := progress_slider g
|}.

Definition set_slider_active (v : bool) (g : Globals) : Globals := {|
  all_interpolated_data := all_interpolated_data g;
  current_drivers_data := current_drivers_data g;
  current_frame := current_frame g;
  total_seconds := total_seconds g;
  times := times g;
  is_paused := is_paused g;
  slider_active := v;
  ghost_mode_on := ghost_mode_on g;
  progress_slider := progress_slider g
|}.

Definition set_is_paused (v : bool) (g : Globals) : Globals := {|
  all_interpolated_data := all_interpolated_data g;
  current_drivers_data := current_drivers_data g;
  current_frame := current_frame g;
  total_seconds := total_seconds g;
  times := times g;
  is_paused := v;
  slider_active := slider_active g;
  ghost_mode_on := ghost_mode_on g;
  progress_slider := progress_slider g
|}.

Definition set_ghost_mode_on (v : bool) (g : Globals) : Globals := {|
  all_interpolated_data := all_interpolated_data g;
  current_drivers_data := current_drivers_data g;
  current_frame := current_frame g;
  total_seconds := total_seconds g;
  times := times g;
  is_paused := is_paused g;
  slider_active := slider_active g;
  ghost_mode_on := v;
  progress_slider := progress_slider g
|}.

Definition set_current_drivers_data (v : list Data) (g : Globals) : Globals := {|
  all_interpolated_data := all_interpolated_data g;
  current_drivers_data := v;
  current_frame := current_frame g;
  total_seconds := total_seconds g;
  times := times g;
  is_paused := is_paused g;
  slider_active := slider_active g;
  ghost_mode_on := ghost_mode_on g;
  progress_slider := progress_slider g
|}.

Definition set_progress_slider (v : Slider) (g : Globals) : Globals := {|
  all_interpolated_data := all_interpolated_data g;
  current_drivers_data := current_drivers_data g;
  current_frame := current_frame g;
  total_seconds := total_seconds g;
  times := times g;
  is_paused := is_paused g;
  slider_active := slider_active g;
  ghost_mode_on := ghost_mode_on g;
  progress_slider := v
|}.

(** [len(times)]. *)
Definition len_times (g : Globals) : Z := Z.of_nat (length (times g)).

(** [reset_plot_objects]: the dots and the legend are rebuilt from
    [current_drivers_data], and the frame count restarts. *)
Definition reset_plot_objects (g : Globals) : Globals := set_current_frame 0 g.

(** [ghost_mode_callback]. *)
Definition ghost_mode_callback (g : Globals) : Globals :=
  let g := set_ghost_mode_on (negb (ghost_mode_on g)) g in
  if ghost_mode_on g then
    if decide (2 <= length (all_interpolated_data g))%nat then
      reset_plot_objects
        (set_current_drivers_data (take 2 (all_interpolated_data g)) g)
    else set_ghost_mode_on false g
  else
    reset_plot_objects (set_current_drivers_data (all_interpolated_data g) g).

(** [pause_callback]. *)
Definition pause_callback (g : Globals) : Globals :=
  set_is_paused (negb (is_paused g)) g.

(** [slider_update], the observer registered with
    [progress_slider.on_changed].  The code forms the product
    [(val / 100) * (len(times) - 1)] in double precision, so that [int]
    may be given a product one rounding error away from the exact one
    taken here; what is stated below of the frame of a seek either allows
    for that error or does not depend on it. *)
Definition slider_update (val : R) (g : Globals) : Globals :=
  let g := set_slider_active true g in
  let current_frame := int ((val / 100) * IZR (len_times g - 1)) in
  let current_frame := Z.max 0 (Z.min current_frame (len_times g - 1)) in
  set_current_frame current_frame g.

(** [progress_slider.set_val(v)] of matplotlib: the value is stored and,
    while [eventson] holds, the observers of the slider are called with
    it.  [update] below switches [eventson] off around its own call for
    that reason. *)
Definition set_val (v : R) (g : Globals) : Globals :=
  let g := set_progress_slider
             {| val := v; eventson := eventson (progress_slider g) |} g in
  if eventson (progress_slider g) then slider_update v g else g.

Definition set_eventson (b : bool) (g : Globals) : Globals :=
  set_progress_slider {| val := val (progress_slider g); eventson := b |} g.

(** [reset_callback]. *)
Definition reset_callback (g : Globals) : Globals :=
  let g := set_current_frame 0 g in
  let g := set_slider_active false g in
  set_val 0 g.

(** ** 5. The animation step *)

(** Which branch of the gap display is taken. *)
Inductive Ahead : Type :=
| side_by_side
| driver1_ahead
| driver2_ahead.

(** The text given to [gap_text.set_text]; the seconds are kept as a
    number, their three-decimal rendering is not modelled. *)
Inductive GapText : Type :=
| GapSideBySide
| GapAheadBy (name : string) (seconds : R).

(** The values computed by the gap block of [update]. *)
Record Gap : Type := {
  distance_gap : R;
  avg_speed_mps : R;
  time_gap : R;
  ahead : Ahead;
  text : GapText
}.

(** What one call of [update] hands to the plot: per driver the position of
    its dot ([None] when the frame is outside the driver's arrays), the
    time and the speed shown, and the gap when the call computes one. *)
Record Display : Type := {
  dots : list (option (R * R));
  time_text : R;
  speed_text : R;
  gap_text : option Gap
}.

(** [max(a, b)] on floats: [b] when it is greater, else [a]. *)
Definition py_max (a b : R) : R := if decide (b > a)%R then b else a.

(** The body of the loop over the drivers shown.  [dots] and [dot_labels]
    are rebuilt from [current_drivers_data] at every change of view, so the
    [zip] of the three ranges over [current_drivers_data]. *)
Definition draw_driver (current_frame : nat)
    (acc : R * list R * list (option (R * R))) (data : Data)
  : result (R * list R * list (option (R * R))) :=
  let '(max_speed, driver_cumulative_distances, dots) := acc in
  if decide (current_frame < length (X_interp data))%nat then
    let* x_pos := getitem (X_interp data) current_frame in
    let* y_pos := getitem (Y_interp data) current_frame in
    let* speed := getitem (Speed_interp data) current_frame in
    let max_speed := py_max max_speed speed in
    let* cumulative_dist := getitem (CumulativeDistance data) current_frame in
    Return (max_speed, driver_cumulative_distances ++ [cumulative_dist],
            dots ++ [Some (x_pos, y_pos)])
  else
    Return (max_speed, driver_cumulative_distances ++ [0%R], dots ++ [None]).

(** The gap block, for the two drivers of the ghost view. *)
Definition live_gap (driver1 driver2 : Data) (current_frame : nat)
    (distance1 distance2 max_speed : R) : Gap :=
  let distance_gap := (distance1 - distance2)%R in
  let avg_speed_mps :=
    match Speed_interp driver1 !! current_frame,
          Speed_interp driver2 !! current_frame with
    | Some speed1, Some speed2 =>
        let avg_speed_kmh := ((speed1 + speed2) / 2)%R in
        if decide (avg_speed_kmh > 0)%R then (avg_speed_kmh / 3.6)%R else 1%R
    | _, _ =>
        if decide (max_speed > 0)%R then (max_speed / 3.6)%R else 1%R
    end in
  let time_gap :=
    if decide (avg_speed_mps > 0)%R
    then (Rabs distance_gap / avg_speed_mps)%R else 0%R in
  if decide (Rabs distance_gap < 1)%R then
    {| distance_gap := distance_gap; avg_speed_mps := avg_speed_mps;
       time_gap := time_gap; ahead := side_by_side; text := GapSideBySide |}
  else if decide (distance_gap > 0)%R then
    {| distance_gap := distance_gap; avg_speed_mps := avg_speed_mps;
       time_gap := time_gap; ahead := driver1_ahead;
       text := GapAheadBy (Driver driver1) time_gap |}
  else
    {| distance_gap := distance_gap; avg_speed_mps := avg_speed_mps;
       time_gap := time_gap; ahead := driver2_ahead;
       text := GapAheadBy (Driver driver2) time_gap |}.

(** The drawing part of [update]; [current_frame] is not negative here. *)
Definition draw (g : Globals) : result Display :=
  let current_frame := Z.to_nat (current_frame g) in
  let* '(max_speed, driver_cumulative_distances, dots) :=
    for_each (draw_driver current_frame) (0%R, [], []) (current_drivers_data g) in
  let current_time := default 0%R (times g !! current_frame) in
  let gap :=
    match ghost_mode_on g, current_drivers_data g, driver_cumulative_distances with
    | true, [driver1; driver2], [distance1; distance2] =>
        Some (live_gap driver1 driver2 current_frame distance1 distance2 max_speed)
    | _, _, _ => None
    end in
  Return {| dots := dots; time_text := current_time;
            speed_text := max_speed; gap_text := gap |}.

(** The part of [update] that moves the frame: the frame follows the
    counter of the animation unless the slider has just set it, it is
    clamped, and the slider is moved with its observers silenced. *)
Definition advance (frame : Z) (g : Globals) : result Globals :=
  let* g :=
    if negb (slider_active g) then
      if decide (len_times g = 0%Z) then Raise ZeroDivisionError
      else Return (set_current_frame (frame mod len_times g) g)
    else Return (set_slider_active false g) in
  let g := set_current_frame
             (Z.max 0 (Z.min (current_frame g) (len_times g - 1))) g in
  let progress_percentage :=
    if decide (len_times g > 1)%Z
    then (IZR (current_frame g) / IZR (len_times g - 1) * 100)%R else 0%R in
  let g := set_eventson false g in
  let g := set_val progress_percentage g in
  let g := set_eventson true g in
  Return g.

(** [update(frame)]: the globals after the call, and what the call returns
    or raises.  A paused call draws nothing. *)
Definition update (frame : Z) (g : Globals) : Globals * result (option Display) :=
  if is_paused g then (g, Return None)
  else
    match advance frame g with
    | Raise e => (g, Raise e)
    | Return g' =>
        (g', let* d := draw g' in Return (Some d))
    end.

(** The globals after the calls [update(f)] for [f] in [frames]. *)
Definition ticks (frames : list Z) (g : Globals) : Globals :=
  foldl (fun g f => (update f g).1) g frames.

(** * Vocabulary of the properties *)

(** The sample times of a telemetry, in seconds. *)
Definition tel_seconds (tel : list Sample) : list R :=
  (fun s => Timedelta.total_seconds (Time s)) <$> tel.

(** The law of the cumulative distance at index [i] of [d]. *)
Definition distance_law (x_interp y_interp d : list R) (i : nat) : Prop :=
  exists prev xi xi1 yi yi1,
    d !! (i - 1)%nat = Some prev
    /\ x_interp !! i = Some xi /\ x_interp !! (i - 1)%nat = Some xi1
    /\ y_interp !! i = Some yi /\ y_interp !! (i - 1)%nat = Some yi1
    /\ d !! i = Some (prev + sqrt ((xi - xi1) ^ 2 + (yi - yi1) ^ 2))%R.

(** What holds of the array once the loop has filled the indices below [s]. *)
Definition filled_below (x_interp y_interp : list R) (s : nat) (d : list R) : Prop :=
  length d = length x_interp
  /\ (forall v, d !! 0%nat = Some v -> v = 0%R)
  /\ forall i, (1 <= i < s)%nat -> distance_law x_interp y_interp d i.

(** The telemetry of a lap when it can be used: fetched without raising,
    not [None], with at least one row. *)
Definition usable_telemetry (row : lap.t) : option (lap.t * list Sample) :=
  match lap.get_telemetry row with
  | Return (Some (s :: tel)) => Some (row, s :: tel)
  | _ => None
  end.

(** Whether a candidate has usable telemetry. *)
Definition usable (row : lap.t) : bool :=
  match usable_telemetry row with Some _ => true | None => false end.

(** The candidates that keep a place in the replay, with their telemetry. *)
Definition survivors (session : Session) : list (lap.t * list Sample) :=
  omap usable_telemetry (drivers_to_track session).

(** The largest time stamp of a telemetry. *)
Definition max_time (item : lap.t * list Sample) : Timedelta.t :=
  match item.2 with
  | [] => 0%Z
  | s :: tel => list_max (Time s) (Time <$> tel)
  end.

(** [data] is the record that the load builds for [item] on [times]. *)
Definition produced (session : Session) (times : list R)
    (item : lap.t * list Sample) (data : Data) : Prop :=
  Driver data = lap.Driver item.1
  /\ LapTime data = lap.LapTime item.1
  /\ Color data = resolve_color session item.1
  /\ interpolate_telemetry item.2 times
     = Return (X_interp data, Y_interp data, Speed_interp data)
  /\ accumulate_distances (X_interp data) (Y_interp data)
     = Return (CumulativeDistance data).

(** The largest time stamp over the telemetries kept. *)
Definition max_duration (session : Session) : Timedelta.t :=
  match max_time <$> survivors session with
  | [] => 0%Z
  | m :: ms => list_max m ms
  end.

(** The clamp of [slider_update] and [update]. *)
Definition clamp (n v : Z) : Z := Z.max 0 (Z.min v (n - 1)).

(** The divisor of the gap block. *)
Definition divisor (A B : Data) (cf : nat) (ms : R) : R :=
  match Speed_interp A !! cf, Speed_interp B !! cf with
  | Some speed1, Some speed2 =>
      if decide ((speed1 + speed2) / 2 > 0)%R
      then ((speed1 + speed2) / 2 / 3.6)%R else 1%R
  | _, _ => if decide (ms > 0)%R then (ms / 3.6)%R else 1%R
  end.

(** The four arrays of a record have the length of the timeline. *)
Definition aligned (N : nat) (A : Data) : Prop :=
  length (X_interp A) = N /\ length (Y_interp A) = N
  /\ length (Speed_interp A) = N /\ length (CumulativeDistance A) = N.

(** The ghost view of [A] and [B] at frame [cf]. *)
Definition ghost_view (g : Globals) (A B : Data) (cf : nat) : Globals :=
  set_ghost_mode_on true
    (set_current_drivers_data [A; B] (set_current_frame (Z.of_nat cf) g)).

(** The spec's reading of a seek: the frame index is a rounding of
    [fraction / 100 * (N - 1)] to a nearest integer, clamped. *)
Definition nearest_integer (x : R) (z : Z) : Prop := (Rabs (x - IZR z) <= 1 / 2)%R.

(** [frame] is what the spec's seek sets for [fraction] on [N] frames. *)
Definition spec_seek_frame (fraction : R) (N frame : Z) : Prop :=
  exists r, nearest_integer (fraction / 100 * IZR (N - 1)) r /\ frame = clamp N r.

(** The gap text says that [driver] is ahead. *)
Definition names_ahead (G : Gap) (driver : string) : Prop :=
  exists seconds, text G = GapAheadBy driver seconds.

(** The spec's reading of the two orderings of a pair: when one gap says
    that a competitor is ahead, the gap of the swapped pair says it of the
    other competitor. *)
Definition spec_opposite_attribution (A B : Data) (GAB GBA : Gap) : Prop :=
  (names_ahead GAB (Driver A) /\ names_ahead GBA (Driver B))
  \/ (names_ahead GAB (Driver B) /\ names_ahead GBA (Driver A)).

(** * Inputs used as instances *)

(** A paused state in the middle of a replay of four frames. *)
Definition paused_at_2 : Globals :=
  set_is_paused true
    (set_current_frame 2
       {| all_interpolated_data := []; current_drivers_data := [];
          current_frame := 0; total_seconds := (4 / FPS)%R;
          times := (fun i : nat => (INR i * (1 / FPS))%R) <$> seq 0 4;
          is_paused := false; slider_active := false; ghost_mode_on := false;
          progress_slider := {| val := 0; eventson := true |} |}).

(** The same replay, running. *)
Definition playing_at_2 : Globals := set_is_paused false paused_at_2.

(** A raw sample. *)
Definition sample (t : Z) (x y v : R) : Sample :=
  {| Time := t; X := x; Y := y; Speed := v |}.

(** One second along the x axis, up to [x1], at 100 km/h. *)
Definition straight (x1 : R) : list Sample :=
  [sample 0 0 0 100; sample 1000000000 x1 0 100].

(** A lap of [driver] in [seconds], with what its telemetry fetch gives. *)
Definition demo_lap (driver : string) (seconds : Z)
    (tel : result (option (list Sample))) : lap.t :=
  {| lap.Driver := driver; lap.Team := "team"; lap.LapNumber := 1;
     lap.LapTime := Some (seconds * 1000000000)%Z; lap.get_telemetry := tel |}.

(** Five drivers; the telemetry of the third cannot be fetched. *)
Definition demo_session : Session := {|
  laps := [ demo_lap "VER" 71 (Return (Some (straight 10)));
            demo_lap "ALO" 72 (Return (Some (straight 5)));
            demo_lap "LEC" 73 (Raise (ValueError "no telemetry"));
            demo_lap "OCO" 74 (Return (Some (straight 4)));
            demo_lap "SAI" 75 (Return (Some (straight 3))) ];
  get_driver_color := fun _ => Raise (ValueError "unknown driver");
  get_team_color := fun _ => Return "#123456"
|}.

(** Two records of the ghost view, on a timeline of two frames. *)
Definition ver : Data := {|
  Driver := "VER"; Color := "#123456";
  X_interp := [0; 10]%R; Y_interp := [0; 0]%R; Speed_interp := [100; 100]%R;
  LapTime := Some 71000000000%Z; CumulativeDistance := [0; 10]%R |}.

Definition alo : Data := {|
  Driver := "ALO"; Color := "#123456";
  X_interp := [0; 5]%R; Y_interp := [0; 0]%R; Speed_interp := [100; 100]%R;
  LapTime := Some 72000000000%Z; CumulativeDistance := [0; 5]%R |}.

(** * The replay as a whole *)

(** What happens to the globals once the load is over: the animation calls
    [update(frame)], a button is clicked, or the slider is dragged to a
    value, which matplotlib passes to [set_val]. *)
Inductive event : Type :=
| Tick (frame : Z)
| PauseClick
| ResetClick
| GhostClick
| SliderMove (val : R).

Definition handle (g : Globals) (e : event) : Globals :=
  match e with
  | Tick frame => (update frame g).1
  | PauseClick => pause_callback g
  | ResetClick => reset_callback g
  | GhostClick => ghost_mode_callback g
  | SliderMove v => set_val v g
  end.

Definition run (events : list event) (g : Globals) : Globals :=
  foldl handle g events.

(** What the load leaves alone afterwards. *)
Definition same_data (g g' : Globals) : Prop :=
  times g' = times g
  /\ total_seconds g' = total_seconds g
  /\ all_interpolated_data g' = all_interpolated_data g.

(** The state of a replay in progress: the records are aligned to the
    timeline, which is the one of the load; the view is the whole grid or,
    in ghost mode, its first two records; the frame is within the
    timeline (0 on an empty one); the slider notifies its observers. *)
Definition consistent (g : Globals) : Prop :=
  Forall (aligned (length (times g))) (all_interpolated_data g)
  /\ times g = np.arange 0 (total_seconds g) (1 / FPS)
  /\ current_drivers_data g
     = (if ghost_mode_on g then take 2 (all_interpolated_data g)
        else all_interpolated_data g)
  /\ (ghost_mode_on g = true -> (2 <= length (all_interpolated_data g))%nat)
  /\ (0 <= current_frame g <= Z.max 0 (len_times g - 1))%Z
  /\ eventson (progress_slider g) = true.

(** The progress shown by the slider for a frame. *)
Definition progress_percentage (g : Globals) : R :=
  if decide (len_times g > 1)%Z
  then (IZR (current_frame g) / IZR (len_times g - 1) * 100)%R else 0%R.

(** A session of one lap whose telemetry is a single sample at time 0. *)
Definition still_session : Session := {|
  laps := [ demo_lap "VER" 71 (Return (Some [sample 0 3 4 0])) ];
  get_driver_color := fun _ => Return "#123456";
  get_team_color := fun _ => Return "#123456"
|}.

(** One lap whose last sample comes one nanosecond after the first
    second. *)
Definition nano_session : Session := {|
  laps := [ demo_lap "VER" 71
              (Return (Some [sample 0 0 0 100; sample 1000000001 10 0 100])) ];
  get_driver_color := fun _ => Return "#123456";
  get_team_color := fun _ => Return "#123456"
|}.

(** A session without laps. *)
Definition empty_session : Session := {|
  laps := [];
  get_driver_color := fun _ => Return "#123456";
  get_team_color := fun _ => Return "#123456"
|}.

(** Two drivers; the telemetry of the second stops at time 0 while the
    first goes on for a second. *)
Definition uneven_session : Session := {|
  laps := [ demo_lap "VER" 71 (Return (Some (straight 10)));
            demo_lap "ALO" 72 (Return (Some [sample 0 3 4 50])) ];
  get_driver_color := fun _ => Return "#123456";
  get_team_color := fun _ => Return "#123456"
|}.

(** * Properties *)

(** ** Array reads *)

Lemma getitem_lt {T : Type} (l : list T) (i : nat) :
  (i < length l)%nat -> exists v, l !! i = Some v /\ getitem l i = Return v.
Proof.
  intros Hi. destruct (lookup_lt_is_Some_2 l i Hi) as [v Hv].
  exists v. split; [exact Hv |]. unfold getitem. now rewrite Hv.
Qed.

(** ** The resampler: [np.interp] stays within the raw values *)

Section resampler.

Implicit Types (xp fp : list R) (x lo hi : R).

Lemma scan_le_length x xp : (np.scan x xp <= length xp)%nat.
Proof.
  induction xp as [|a xp IH]; simpl; [lia |].
  destruct (decide (x >= a)%R); simpl; lia.
Qed.

Lemma scan_before x xp i v :
  (i < np.scan x xp)%nat -> xp !! i = Some v -> (v <= x)%R.
Proof.
  revert i. induction xp as [|a xp IH]; intros i Hi Hv; simpl in *; [lia |].
  destruct (decide (x >= a)%R) as [Ha|]; [| lia].
  destruct i as [|i]; simpl in Hv.
  - inversion Hv; subst. lra.
  - apply (IH i); [lia | exact Hv].
Qed.

Lemma scan_at x xp v :
  xp !! np.scan x xp = Some v -> (x < v)%R.
Proof.
  induction xp as [|a xp IH]; simpl; [discriminate |].
  destruct (decide (x >= a)%R) as [Ha|Ha]; simpl.
  - exact IH.
  - intros Hv. inversion Hv; subst. lra.
Qed.

(** A point of the segment between two samples lies between their values. *)
Lemma segment_bounded x xj xj1 yj yj1 lo hi :
  (xj < x < xj1)%R -> (lo <= yj <= hi)%R -> (lo <= yj1 <= hi)%R ->
  (lo <= (yj1 - yj) / (xj1 - xj) * (x - xj) + yj <= hi)%R.
Proof.
  intros Hx Hj Hj1.
  set (t := ((x - xj) / (xj1 - xj))%R).
  assert (Ht : (0 < t < 1)%R).
  { unfold t. split.
    - apply Rdiv_lt_0_compat; lra.
    - apply (Rmult_lt_reg_r (xj1 - xj)); [lra |].
      unfold Rdiv. rewrite Rmult_assoc, Rinv_l by lra. lra. }
  replace ((yj1 - yj) / (xj1 - xj) * (x - xj) + yj)%R
    with (t * (yj1 - yj) + yj)%R by (unfold t; field; lra).
  nra.
Qed.

Lemma last_elem_of {T : Type} (l : list T) (v : T) : last l = Some v -> v ∈ l.
Proof.
  rewrite last_lookup. intros H. apply list_elem_of_lookup. eauto.
Qed.

(** One interpolated value exists: it is a sample value, or a point of
    the segment between two sample values. *)
Lemma interp_at_cases xp fp x :
  xp <> [] -> length fp = length xp ->
  exists y,
    np.interp_at xp fp x = Some y
    /\ (y ∈ fp
        \/ exists xj xj1 yj yj1,
             yj ∈ fp /\ yj1 ∈ fp /\ (xj < x < xj1)%R
             /\ y = ((yj1 - yj) / (xj1 - xj) * (x - xj) + yj)%R).
Proof.
  intros Hne Hlen.
  assert (Hget : forall i, (i < length xp)%nat ->
                           exists v, fp !! i = Some v /\ v ∈ fp).
  { intros i Hi. destruct (lookup_lt_is_Some_2 fp i) as [v Hv]; [lia |].
    exists v. split; [exact Hv |]. apply list_elem_of_lookup. eauto. }
  unfold np.interp_at, np.binary_search.
  destruct xp as [|a0 xp']; [contradiction |].
  destruct (last (a0 :: xp')) as [an|] eqn:Hlast;
    [| apply last_None in Hlast; discriminate].
  assert (Hscan : (x >= a0)%R -> (1 <= np.scan x (a0 :: xp'))%nat).
  { intros Hx. simpl. destruct (decide (x >= a0)%R); [lia | contradiction]. }
  assert (Hpos : (0 < length (a0 :: xp'))%nat) by (simpl; lia).
  remember (a0 :: xp') as xp eqn:Hxp. clear Hxp Hlast Hne.
  destruct (decide (x > an)%R) as [Hgt|Hgt].
  { destruct (decide (Z.of_nat (length xp) = (-1)%Z)); [lia |].
    destruct (decide (Z.of_nat (length xp) = Z.of_nat (length xp))); [| lia].
    destruct (last fp) as [v|] eqn:Hl.
    - exists v. split; [reflexivity |]. left. now apply last_elem_of.
    - apply last_None in Hl. subst fp. simpl in Hlen. lia. }
  destruct (decide (x < a0)%R) as [Hlt|Hlt].
  { destruct (decide ((-1)%Z = (-1)%Z)); [| lia].
    destruct (Hget 0%nat Hpos) as (v & Hv & Hin).
    exists v. split; [exact Hv | now left]. }
  pose proof (scan_le_length x xp) as Hle.
  assert (Hge1 : (1 <= np.scan x xp)%nat) by (apply Hscan; lra).
  destruct (decide ((Z.of_nat (np.scan x xp) - 1)%Z = (-1)%Z)); [lia |].
  destruct (decide ((Z.of_nat (np.scan x xp) - 1)%Z = Z.of_nat (length xp))); [lia |].
  replace (Z.to_nat (Z.of_nat (np.scan x xp) - 1)) with (np.scan x xp - 1)%nat by lia.
  set (j := (np.scan x xp - 1)%nat).
  assert (Hj : S j = np.scan x xp) by (unfold j; lia).
  destruct (decide (j = (length xp - 1)%nat)) as [Hend|Hend].
  { destruct (Hget j) as (v & Hv & Hin); [lia |].
    exists v. split; [exact Hv | now left]. }
  destruct (lookup_lt_is_Some_2 xp j) as [xj Hxj]; [lia |].
  destruct (lookup_lt_is_Some_2 xp (S j)) as [xj1 Hxj1]; [lia |].
  destruct (Hget j) as (yj & Hyj & Hinj); [lia |].
  destruct (Hget (S j)) as (yj1 & Hyj1 & Hinj1); [lia |].
  rewrite Hxj. cbn [mbind option_bind].
  destruct (decide (xj = x)) as [Heq|Hneq].
  { exists yj. split; [exact Hyj | now left]. }
  rewrite Hxj1, Hyj, Hyj1. cbn [mbind option_bind].
  eexists. split; [reflexivity |]. right.
  exists xj, xj1, yj, yj1. repeat (split; [assumption |]).
  split; [| reflexivity].
  pose proof (scan_before x xp j xj ltac:(lia) Hxj).
  rewrite Hj in Hxj1. pose proof (scan_at x xp xj1 Hxj1).
  lra.
Qed.

Lemma interp_at_bounded xp fp x y lo hi :
  xp <> [] -> length fp = length xp ->
  (forall v, v ∈ fp -> (lo <= v <= hi)%R) ->
  np.interp_at xp fp x = Some y -> (lo <= y <= hi)%R.
Proof.
  intros Hne Hlen Hb Hy.
  destruct (interp_at_cases xp fp x Hne Hlen) as (y' & Hy' & Hc).
  assert (y' = y) as -> by congruence.
  destruct Hc as [Hin | (xj & xj1 & yj & yj1 & Hj & Hj1 & Hx & ->)].
  - now apply Hb.
  - apply segment_bounded; auto.
Qed.

(** Above the last sample point the value is the last sample. *)
Lemma interp_at_right xp fp x an :
  last xp = Some an -> (x > an)%R -> np.interp_at xp fp x = last fp.
Proof.
  intros Hlast Hgt. unfold np.interp_at, np.binary_search.
  destruct xp as [|a0 xp']; [discriminate |]. rewrite Hlast.
  destruct (decide (x > an)%R); [| contradiction].
  destruct (decide (Z.of_nat (length (a0 :: xp')) = (-1)%Z)); [lia |].
  destruct (decide (Z.of_nat (length (a0 :: xp')) = Z.of_nat (length (a0 :: xp'))));
    [reflexivity | lia].
Qed.

(** Below the first sample point, when the first is not above the last,
    the value is the first sample. *)
Lemma interp_at_left xp fp x a0 an :
  head xp = Some a0 -> last xp = Some an -> (a0 <= an)%R ->
  (x < a0)%R -> np.interp_at xp fp x = head fp.
Proof.
  intros Hhead Hlast Hle Hlt. unfold np.interp_at, np.binary_search.
  destruct xp as [|a xp']; [discriminate |]. rewrite Hlast.
  simpl in Hhead. inversion Hhead; subst a.
  destruct (decide (x > an)%R); [lra |].
  destruct (decide (x < a0)%R); [| contradiction].
  destruct (decide ((-1)%Z = (-1)%Z)); [| lia].
  now destruct fp.
Qed.

(** [np.interp] on sample arrays of one non-zero length returns one value
    per query, the one of [np.interp_at]. *)
Lemma interp_returns (xs : list R) xp fp :
  xp <> [] -> length fp = length xp ->
  exists r,
    np.interp xs xp fp = Return r
    /\ length r = length xs
    /\ forall i t, xs !! i = Some t -> r !! i = np.interp_at xp fp t.
Proof.
  intros Hne Hlen. unfold np.interp.
  destruct (decide (length xp = 0%nat)) as [H0|_];
    [destruct xp; [contradiction | discriminate] |].
  destruct (decide (length fp ≠ length xp)); [contradiction |].
  destruct (mapM (np.interp_at xp fp) xs) as [r|] eqn:Hm.
  - exists r. split; [reflexivity |].
    pose proof (length_mapM _ _ _ Hm) as Hl. split; [now symmetry |].
    apply mapM_Some_1 in Hm. intros i t Ht.
    destruct (Forall2_lookup_l _ _ _ _ _ Hm Ht) as (y & Hy & Hf).
    now rewrite Hy, Hf.
  - exfalso. apply mapM_None_1 in Hm. apply Exists_exists in Hm.
    destruct Hm as (t & _ & Ht).
    destruct (interp_at_cases xp fp t Hne Hlen) as (y & Hy & _).
    rewrite Hy in Ht. discriminate.
Qed.

(** The sample times of a time-sorted telemetry: the first is not after
    the last. *)
Lemma sorted_head_le_last (l : list Z) (a b : Z) :
  Sorted Z.le l -> head l = Some a -> last l = Some b -> (a <= b)%Z.
Proof.
  intros Hs Ha Hb. apply Sorted_StronglySorted in Hs; [| intros ? ? ?; lia].
  destruct l as [|a' l]; [discriminate |]. simpl in Ha. inversion Ha; subst a'.
  apply StronglySorted_inv in Hs. destruct Hs as [_ Hall].
  destruct l as [|c l]; [simpl in Hb; inversion Hb; lia |].
  rewrite last_cons_cons in Hb. apply last_elem_of in Hb.
  rewrite Forall_forall in Hall. now apply Hall.
Qed.

Lemma total_seconds_le (a b : Z) :
  (a <= b)%Z -> (Timedelta.total_seconds a <= Timedelta.total_seconds b)%R.
Proof. intros H. apply IZR_le in H. unfold Timedelta.total_seconds. lra. Qed.

(** One channel [f] of a telemetry, resampled at [times]. *)
Lemma channel_resampled (f : Sample -> R) (tel : list Sample) (times : list R) :
  tel <> [] ->
  exists r,
    np.interp times (tel_seconds tel) (f <$> tel) = Return r
    /\ length r = length times
    /\ forall i t, times !! i = Some t ->
         exists v,
           r !! i = Some v
           /\ (MinRlist (f <$> tel) <= v <= MaxRlist (f <$> tel))%R
           /\ (forall s0, Sorted Z.le (Time <$> tel) -> head tel = Some s0 ->
                (t < Timedelta.total_seconds (Time s0))%R -> v = f s0)
           /\ (forall sn, last tel = Some sn ->
                (t > Timedelta.total_seconds (Time sn))%R -> v = f sn).
Proof.
  intros Hne.
  assert (Hxp : tel_seconds tel <> []) by (destruct tel; [contradiction | discriminate]).
  assert (Hlen : length (f <$> tel) = length (tel_seconds tel))
    by (unfold tel_seconds; now rewrite !length_fmap).
  destruct (interp_returns times _ _ Hxp Hlen) as (r & Hr & Hl & Hat).
  exists r. split; [exact Hr |]. split; [exact Hl |].
  intros i t Ht. specialize (Hat i t Ht).
  destruct (interp_at_cases (tel_seconds tel) (f <$> tel) t Hxp Hlen) as (v & Hv & _).
  exists v. split; [congruence |]. split; [| split].
  - apply (interp_at_bounded (tel_seconds tel) (f <$> tel) t); auto.
    intros w Hw. apply list_elem_of_In in Hw. split.
    + now apply MinRlist_P1.
    + now apply MaxRlist_P1.
  - intros s0 Hs H0 Hlt.
    destruct (last tel) as [sn|] eqn:Hn; [| apply last_None in Hn; contradiction].
    assert (Hle : (Time s0 <= Time sn)%Z).
    { apply (sorted_head_le_last (Time <$> tel)); [exact Hs | |].
      - destruct tel; [discriminate |]. simpl in *. congruence.
      - rewrite fmap_last, Hn. reflexivity. }
    apply total_seconds_le in Hle.
    rewrite (interp_at_left _ _ t (Timedelta.total_seconds (Time s0))
               (Timedelta.total_seconds (Time sn))) in Hv; auto.
    + destruct tel; [discriminate |]. simpl in *. congruence.
    + destruct tel; [discriminate |]. simpl in *. congruence.
    + unfold tel_seconds. rewrite fmap_last, Hn. reflexivity.
  - intros sn Hn Hgt.
    rewrite (interp_at_right _ _ t (Timedelta.total_seconds (Time sn))) in Hv; auto.
    + rewrite fmap_last, Hn in Hv. simpl in Hv. congruence.
    + unfold tel_seconds. rewrite fmap_last, Hn. reflexivity.
Qed.

(** C2. For a non-empty telemetry and any list of query times,
    [interpolate_telemetry] returns three arrays with one value per query;
    each value lies between the least and the largest raw value of its
    channel; when the raw samples are sorted by time, a query before the
    first raw sample gives the first raw value, and a query after the last
    raw sample gives the last raw value. *)
Theorem resampling_within_raw_range (tel : list Sample) (times : list R) :
  tel <> [] ->
  Sorted Z.le (Time <$> tel) ->
  exists x_interp y_interp speed_interp,
    interpolate_telemetry tel times = Return (x_interp, y_interp, speed_interp)
    /\ length x_interp = length times
    /\ length y_interp = length times
    /\ length speed_interp = length times
    /\ forall i t, times !! i = Some t ->
         exists x y s,
           x_interp !! i = Some x /\ y_interp !! i = Some y
           /\ speed_interp !! i = Some s
           /\ (MinRlist (X <$> tel) <= x <= MaxRlist (X <$> tel))%R
           /\ (MinRlist (Y <$> tel) <= y <= MaxRlist (Y <$> tel))%R
           /\ (MinRlist (Speed <$> tel) <= s <= MaxRlist (Speed <$> tel))%R
           /\ (forall s0, head tel = Some s0 ->
                (t < Timedelta.total_seconds (Time s0))%R ->
                x = X s0 /\ y = Y s0 /\ s = Speed s0)
           /\ (forall sn, last tel = Some sn ->
                (t > Timedelta.total_seconds (Time sn))%R ->
                x = X sn /\ y = Y sn /\ s = Speed sn).
Proof.
  intros Hne Hs.
  destruct (channel_resampled X tel times Hne) as (xs & Ex & Lx & Hx).
  destruct (channel_resampled Y tel times Hne) as (ys & Ey & Ly & Hy).
  destruct (channel_resampled Speed tel times Hne) as (ss & Es & Ls & Hsp).
  exists xs, ys, ss. unfold interpolate_telemetry.
  fold (tel_seconds tel). rewrite Ex, Ey, Es.
  split; [reflexivity |]. repeat (split; [assumption |]).
  intros i t Ht.
  destruct (Hx i t Ht) as (x & Hx1 & Hx2 & Hx3 & Hx4).
  destruct (Hy i t Ht) as (y & Hy1 & Hy2 & Hy3 & Hy4).
  destruct (Hsp i t Ht) as (v & Hs1 & Hs2 & Hs3 & Hs4).
  exists x, y, v. repeat (split; [assumption |]). split.
  - intros s0 H0 Hlt. repeat split; auto.
  - intros sn Hn Hgt. repeat split; auto.
Qed.

End resampler.

(** ** The distance accumulator *)

Section distances.

Variables x_interp y_interp : list R.
Hypothesis same_length : length y_interp = length x_interp.

Lemma distance_step_fills s d :
  (1 <= s < length x_interp)%nat -> filled_below x_interp y_interp s d ->
  exists d', distance_step x_interp y_interp d s = Return d'
             /\ filled_below x_interp y_interp (S s) d'.
Proof.
  intros Hs (Hlen & H0 & Hlaw). unfold distance_step.
  destruct (getitem_lt x_interp s) as (xi & Hxi & ->); [lia |].
  destruct (getitem_lt x_interp (s - 1)) as (xi1 & Hxi1 & ->); [lia |].
  destruct (getitem_lt y_interp s) as (yi & Hyi & ->); [lia |].
  destruct (getitem_lt y_interp (s - 1)) as (yi1 & Hyi1 & ->); [lia |].
  destruct (getitem_lt d (s - 1)) as (prev & Hprev & ->); [lia |].
  cbn [bind]. eexists. split; [reflexivity |].
  split; [now rewrite length_insert |]. split.
  - intros v. rewrite list_lookup_insert_ne by lia. apply H0.
  - intros i Hi. destruct (decide (i = s)) as [-> | Hne].
    + exists prev, xi, xi1, yi, yi1.
      rewrite list_lookup_insert_ne by lia.
      rewrite list_lookup_insert_eq by lia. repeat split; assumption.
    + destruct (Hlaw i ltac:(lia)) as (p & a & b & c & e & Hp & Ha & Hb & Hc & He & Hd).
      exists p, a, b, c, e.
      rewrite !list_lookup_insert_ne by lia. repeat split; assumption.
Qed.

Lemma distance_loop_fills m : forall s d,
  (1 <= s)%nat -> (s + m <= length x_interp)%nat \/ m = 0%nat ->
  filled_below x_interp y_interp s d ->
  exists d', for_each (distance_step x_interp y_interp) d (seq s m) = Return d'
             /\ filled_below x_interp y_interp (s + m) d'.
Proof.
  induction m as [|m IH]; intros s d Hs Hm Hf.
  - exists d. split; [reflexivity |]. now rewrite Nat.add_0_r.
  - destruct Hm as [Hm | Hm]; [| discriminate].
    destruct (distance_step_fills s d ltac:(lia) Hf) as (d1 & E1 & F1).
    destruct (IH (S s) d1 ltac:(lia) ltac:(left; lia) F1) as (d2 & E2 & F2).
    exists d2. cbn [seq for_each]. rewrite E1. cbn [bind].
    split; [exact E2 |]. now replace (s + S m)%nat with (S s + m)%nat by lia.
Qed.

(** The loop returns an array of the length of the positions that starts
    at 0 and obeys the law at every later index. *)
Lemma accumulate_distances_spec :
  exists d,
    accumulate_distances x_interp y_interp = Return d
    /\ length d = length x_interp
    /\ (forall v, d !! 0%nat = Some v -> v = 0%R)
    /\ forall i, (1 <= i < length x_interp)%nat -> distance_law x_interp y_interp d i.
Proof.
  unfold accumulate_distances.
  destruct (distance_loop_fills (length x_interp - 1) 1
              (np.zeros (length x_interp))) as (d & E & Hlen & H0 & Hlaw).
  - lia.
  - lia.
  - split; [apply length_replicate |]. split.
    + intros v Hv. unfold np.zeros in Hv.
      apply lookup_replicate in Hv. now destruct Hv.
    + intros i Hi. lia.
  - exists d. split; [exact E |]. split; [exact Hlen |]. split; [exact H0 |].
    intros i Hi. apply Hlaw. lia.
Qed.

End distances.

(** ** The synchronisation engine *)

Section engine.

Implicit Types (session : Session) (rows : list lap.t) (g : Globals).

Lemma list_max_ge (l : list Z) : forall a v, v ∈ a :: l -> (v <= list_max a l)%Z.
Proof.
  unfold list_max. induction l as [|b l IH]; intros a v Hv; simpl.
  - apply list_elem_of_singleton in Hv. lia.
  - apply elem_of_cons in Hv. destruct Hv as [-> | Hv].
    + etransitivity; [| apply (IH (Z.max a b) (Z.max a b)); left]. lia.
    + apply elem_of_cons in Hv. destruct Hv as [-> | Hv].
      * etransitivity; [| apply (IH (Z.max a b) (Z.max a b)); left]. lia.
      * apply IH. now right.
Qed.

Lemma list_max_in (l : list Z) : forall a, list_max a l ∈ a :: l.
Proof.
  unfold list_max. induction l as [|b l IH]; intros a; simpl.
  - left.
  - specialize (IH (Z.max a b)). apply elem_of_cons in IH.
    destruct IH as [-> | IH].
    + destruct (Z.max_spec a b) as [[_ ->] | [_ ->]]; [right; left | left].
    + right. now right.
Qed.

Lemma prefetch_step_spec ml tl row :
  prefetch_step (ml, tl) row
  = (ml ++ (max_time <$> option_list (usable_telemetry row)),
     tl ++ option_list (usable_telemetry row)).
Proof.
  unfold prefetch_step, usable_telemetry.
  destruct (lap.get_telemetry row) as [e | [[| s tel] |]]; simpl;
    rewrite ?app_nil_r; reflexivity.
Qed.

Lemma omap_cons_option_list {T U : Type} (f : T -> option U) (a : T) (l : list T) :
  omap f (a :: l) = option_list (f a) ++ omap f l.
Proof. simpl. now destruct (f a). Qed.

Lemma prefetch_acc rows : forall ml tl,
  foldl prefetch_step (ml, tl) rows
  = (ml ++ (max_time <$> omap usable_telemetry rows),
     tl ++ omap usable_telemetry rows).
Proof.
  induction rows as [|row rows IH]; intros ml tl.
  - simpl. now rewrite !app_nil_r.
  - cbn [foldl]. rewrite prefetch_step_spec, IH, omap_cons_option_list.
    now rewrite fmap_app, !app_assoc.
Qed.

Lemma prefetch_spec rows :
  prefetch rows
  = (max_time <$> omap usable_telemetry rows, omap usable_telemetry rows).
Proof. unfold prefetch. now rewrite prefetch_acc. Qed.

Lemma usable_telemetry_Some row item :
  usable_telemetry row = Some item ->
  item.1 = row /\ item.2 <> [] /\ lap.get_telemetry row = Return (Some item.2).
Proof.
  unfold usable_telemetry.
  destruct (lap.get_telemetry row) as [e | [[| s tel] |]]; try discriminate.
  intros H. inversion H; subst. simpl. repeat split. discriminate.
Qed.

Lemma survivors_nonempty session item :
  item ∈ survivors session -> item.2 <> [].
Proof.
  unfold survivors. intros Hin. apply list_elem_of_omap in Hin.
  destruct Hin as (row & _ & Hrow). now apply usable_telemetry_Some in Hrow.
Qed.

Lemma survivors_filter rows :
  (omap usable_telemetry rows).*1 = filter (fun r => usable r = true) rows.
Proof.
  induction rows as [|row rows IH]; [reflexivity |].
  rewrite filter_cons, omap_cons_option_list, fmap_app, IH.
  destruct (decide (usable row = true)) as [Hu|Hu]; unfold usable in Hu;
    destruct (usable_telemetry row) as [item|] eqn:E;
    try discriminate; try (now contradiction Hu); [| reflexivity].
  apply usable_telemetry_Some in E. destruct E as (<- & _). reflexivity.
Qed.

Lemma interpolate_telemetry_returns (tel : list Sample) (times : list R) :
  tel <> [] ->
  exists x_interp y_interp speed_interp,
    interpolate_telemetry tel times = Return (x_interp, y_interp, speed_interp)
    /\ length x_interp = length times
    /\ length y_interp = length times
    /\ length speed_interp = length times.
Proof.
  intros Hne.
  destruct (channel_resampled X tel times Hne) as (xs & Ex & Lx & _).
  destruct (channel_resampled Y tel times Hne) as (ys & Ey & Ly & _).
  destruct (channel_resampled Speed tel times Hne) as (ss & Es & Ls & _).
  exists xs, ys, ss. unfold interpolate_telemetry.
  fold (tel_seconds tel). rewrite Ex, Ey, Es. repeat split; assumption.
Qed.

Lemma synchronize_step_returns session times all item :
  item.2 <> [] ->
  exists data,
    synchronize_step session times all item = Return (all ++ [data])
    /\ produced session times item data.
Proof.
  destruct item as [row tel]. simpl. intros Hne.
  destruct (interpolate_telemetry_returns tel times Hne)
    as (xs & ys & ss & Ei & Lx & Ly & _).
  destruct (accumulate_distances_spec xs ys ltac:(congruence)) as (d & Ed & _).
  unfold synchronize_step. rewrite Ei. cbn [bind]. rewrite Ed. cbn [bind].
  eexists. split; [reflexivity |]. repeat split; assumption.
Qed.

Lemma synchronize_loop_returns session times items : forall all,
  Forall (fun item => item.2 <> []) items ->
  exists ds,
    for_each (synchronize_step session times) all items = Return (all ++ ds)
    /\ Forall2 (produced session times) items ds.
Proof.
  induction items as [|item items IH]; intros all Hall.
  - exists []. split; [simpl; now rewrite app_nil_r | constructor].
  - apply Forall_cons in Hall. destruct Hall as [Hi Hall].
    destruct (synchronize_step_returns session times all item Hi) as (data & E & Hp).
    destruct (IH (all ++ [data]) Hall) as (ds & Eds & Hds).
    exists (data :: ds). cbn [for_each]. rewrite E. cbn [bind]. rewrite Eds.
    split; [now rewrite <- app_assoc | now constructor].
Qed.

(** The load returns as soon as one lap has a lap time and one candidate
    has usable telemetry; the records are those of the survivors, in
    their order. *)
Lemma load_returns session :
  notna (laps session) <> [] -> survivors session <> [] ->
  exists g,
    load_and_synchronize_data session initial = Return g
    /\ Forall2 (produced session (times g)) (survivors session)
         (all_interpolated_data g)
    /\ current_drivers_data g = all_interpolated_data g
    /\ total_seconds g = Timedelta.scalar_total_seconds (max_duration session)
    /\ times g = np.arange 0 (total_seconds g) (1 / FPS).
Proof.
  intros Hlaps Hsurv. unfold load_and_synchronize_data.
  destruct (decide (length (notna (laps session)) = 0%nat)) as [H0|_].
  { apply nil_length_inv in H0. contradiction. }
  rewrite prefetch_spec. fold (survivors session).
  unfold max_duration.
  destruct (max_time <$> survivors session) as [|m ms] eqn:Hm.
  { apply fmap_nil_inv in Hm. contradiction. }
  set (T := Timedelta.scalar_total_seconds (list_max m ms)).
  destruct (synchronize_loop_returns session (np.arange 0 T (1 / FPS))
              (survivors session) (all_interpolated_data initial))
    as (ds & Eds & Hds).
  { apply Forall_forall. intros item. apply survivors_nonempty. }
  rewrite Eds. cbn [bind]. simpl app.
  destruct (decide (length ds = 0%nat)) as [Hz|_].
  { apply nil_length_inv in Hz. subst ds. inversion Hds; subst. congruence. }
  eexists. split; [reflexivity |]. simpl. repeat split. exact Hds.
Qed.

Lemma load_raises session :
  notna (laps session) = [] \/ survivors session = [] ->
  exists msg, load_and_synchronize_data session initial = Raise (ValueError msg).
Proof.
  intros H. unfold load_and_synchronize_data.
  destruct (decide (length (notna (laps session)) = 0%nat)) as [H0|Hn0].
  { eexists. reflexivity. }
  destruct H as [H | H]; [rewrite H in Hn0; contradiction |].
  rewrite prefetch_spec. fold (survivors session). rewrite H. simpl.
  eexists. reflexivity.
Qed.

Lemma load_inv session g :
  load_and_synchronize_data session initial = Return g ->
  notna (laps session) <> [] /\ survivors session <> []
  /\ Forall2 (produced session (times g)) (survivors session)
       (all_interpolated_data g)
  /\ current_drivers_data g = all_interpolated_data g
  /\ total_seconds g = Timedelta.scalar_total_seconds (max_duration session)
  /\ times g = np.arange 0 (total_seconds g) (1 / FPS).
Proof.
  intros Hg.
  assert (Hl : notna (laps session) <> []).
  { intros H. destruct (load_raises session (or_introl H)) as [msg E]. congruence. }
  assert (Hs : survivors session <> []).
  { intros H. destruct (load_raises session (or_intror H)) as [msg E]. congruence. }
  destruct (load_returns session Hl Hs) as (g' & E & H).
  assert (g' = g) as -> by congruence. auto.
Qed.

Lemma produced_aligned session times item data :
  item.2 <> [] -> produced session times item data ->
  length (X_interp data) = length times
  /\ length (Y_interp data) = length times
  /\ length (Speed_interp data) = length times
  /\ length (CumulativeDistance data) = length times
  /\ (forall v, CumulativeDistance data !! 0%nat = Some v -> v = 0%R)
  /\ forall i, (1 <= i < length times)%nat ->
       distance_law (X_interp data) (Y_interp data) (CumulativeDistance data) i.
Proof.
  intros Hne (_ & _ & _ & Hi & Hd).
  destruct (interpolate_telemetry_returns item.2 times Hne)
    as (xs & ys & ss & Ei & Lx & Ly & Ls).
  rewrite Ei in Hi. inversion Hi; subst xs ys ss. clear Hi.
  destruct (accumulate_distances_spec (X_interp data) (Y_interp data)
              ltac:(congruence)) as (d & Ed & Ld & H0 & Hlaw).
  rewrite Ed in Hd. inversion Hd; subst d. clear Hd.
  repeat (split; [congruence |]). split; [exact H0 |].
  intros i Hi. apply Hlaw. lia.
Qed.

Lemma loaded_record session g data :
  load_and_synchronize_data session initial = Return g ->
  data ∈ all_interpolated_data g ->
  exists item, item ∈ survivors session /\ produced session (times g) item data.
Proof.
  intros Hg Hin. destruct (load_inv session g Hg) as (_ & _ & HF & _).
  apply list_elem_of_lookup in Hin. destruct Hin as [i Hi].
  destruct (Forall2_lookup_r _ _ _ _ _ HF Hi) as (item & Hitem & Hp).
  exists item. split; [| exact Hp]. apply list_elem_of_lookup. eauto.
Qed.

(** C1. For every record built by the load, the cumulative distance has
    one entry per time stamp, is 0 at index 0, and at every later index is
    the entry before plus the Euclidean distance between the two
    consecutive interpolated positions; hence it never decreases. *)
Theorem cumulative_distance_law session g data :
  load_and_synchronize_data session initial = Return g ->
  data ∈ all_interpolated_data g ->
  let N := length (times g) in
  length (CumulativeDistance data) = N
  /\ length (X_interp data) = N /\ length (Y_interp data) = N
  /\ ((0 < N)%nat -> CumulativeDistance data !! 0%nat = Some 0%R)
  /\ forall i, (1 <= i < N)%nat ->
       exists prev xi xi1 yi yi1,
         CumulativeDistance data !! (i - 1)%nat = Some prev
         /\ X_interp data !! i = Some xi /\ X_interp data !! (i - 1)%nat = Some xi1
         /\ Y_interp data !! i = Some yi /\ Y_interp data !! (i - 1)%nat = Some yi1
         /\ CumulativeDistance data !! i
            = Some (prev + sqrt ((xi - xi1) ^ 2 + (yi - yi1) ^ 2))%R
         /\ (prev <= prev + sqrt ((xi - xi1) ^ 2 + (yi - yi1) ^ 2))%R.
Proof.
  intros Hg Hin N.
  destruct (loaded_record session g data Hg Hin) as (item & Hs & Hp).
  destruct (produced_aligned session (times g) item data
              (survivors_nonempty session item Hs) Hp)
    as (Lx & Ly & _ & Ld & H0 & Hlaw).
  repeat (split; [assumption |]). split.
  - intros HN. destruct (lookup_lt_is_Some_2 (CumulativeDistance data) 0%nat)
      as [v Hv]; [fold N in Ld; lia |].
    rewrite Hv. f_equal. now apply H0.
  - intros i Hi.
    destruct (Hlaw i Hi) as (p & a & b & c & e & Hp' & Ha & Hb & Hc & He & Hd).
    exists p, a, b, c, e. repeat (split; [assumption |]).
    pose proof (sqrt_pos ((a - b) ^ 2 + (c - e) ^ 2)). lra.
Qed.

Lemma arange_length (start stop step : R) :
  length (np.arange start stop step)
  = Z.to_nat (Zceil ((stop - start) / step)).
Proof. unfold np.arange. now rewrite length_fmap, length_seq. Qed.

Lemma arange_lookup (start stop step : R) (i : nat) :
  (i < length (np.arange start stop step))%nat ->
  np.arange start stop step !! i = Some (start + INR i * step)%R.
Proof.
  rewrite arange_length. intros Hi. unfold np.arange.
  rewrite list_lookup_fmap, lookup_seq_lt by exact Hi. reflexivity.
Qed.

Lemma max_duration_is_max session :
  survivors session <> [] ->
  (exists item s, item ∈ survivors session /\ s ∈ item.2
                  /\ Time s = max_duration session)
  /\ forall item s, item ∈ survivors session -> s ∈ item.2 ->
       (Time s <= max_duration session)%Z.
Proof.
  intros Hne.
  assert (Hin : forall item, item ∈ survivors session ->
            (exists s, s ∈ item.2 /\ Time s = max_time item)
            /\ forall s, s ∈ item.2 -> (Time s <= max_time item)%Z).
  { intros item Hitem. apply survivors_nonempty in Hitem.
    unfold max_time. destruct item.2 as [|s0 tel]; [contradiction |]. split.
    - pose proof (list_max_in (Time <$> tel) (Time s0)) as Hm.
      change (Time s0 :: (Time <$> tel)) with (Time <$> s0 :: tel) in Hm.
      apply list_elem_of_fmap in Hm. destruct Hm as (s & Hs & Hin).
      exists s. split; [exact Hin | now symmetry].
    - intros s Hs. apply list_max_ge.
      change (Time s0 :: (Time <$> tel)) with (Time <$> s0 :: tel).
      now apply list_elem_of_fmap_2. }
  unfold max_duration.
  destruct (max_time <$> survivors session) as [|m ms] eqn:Hm.
  { apply fmap_nil_inv in Hm. contradiction. }
  split.
  - assert (Hmax : list_max m ms ∈ max_time <$> survivors session)
      by (rewrite Hm; apply list_max_in).
    apply list_elem_of_fmap in Hmax. destruct Hmax as (item & Hi & Hitem).
    destruct (Hin item Hitem) as [(s & Hs & Hts) _].
    exists item, s. repeat split; try assumption. congruence.
  - intros item s Hitem Hs.
    destruct (Hin item Hitem) as [_ Hle].
    etransitivity; [now apply Hle |].
    apply list_max_ge.
    assert (Hmt : max_time item ∈ max_time <$> survivors session)
      by now apply list_elem_of_fmap_2.
    now rewrite Hm in Hmt.
Qed.

Lemma scalar_total_seconds_bounds (d : Z) :
  (Timedelta.scalar_total_seconds d <= Timedelta.total_seconds d
   < Timedelta.scalar_total_seconds d + 1 / 1000000)%R.
Proof.
  unfold Timedelta.scalar_total_seconds, Timedelta.total_seconds.
  pose proof (Z.div_mod d 1000 ltac:(lia)) as Hd.
  pose proof (Z.mod_pos_bound d 1000 ltac:(lia)) as Hm.
  assert (Hl : (1000 * (d / 1000) <= d)%Z) by lia.
  assert (Hu : (d < 1000 * (d / 1000) + 1000)%Z) by lia.
  apply IZR_le in Hl. apply IZR_lt in Hu.
  rewrite plus_IZR, mult_IZR in Hu. rewrite mult_IZR in Hl. lra.
Qed.

Lemma scalar_total_seconds_exact (d : Z) :
  (d mod 1000 = 0)%Z ->
  Timedelta.scalar_total_seconds d = Timedelta.total_seconds d.
Proof.
  intros Hm. unfold Timedelta.scalar_total_seconds, Timedelta.total_seconds.
  pose proof (Z.div_mod d 1000 ltac:(lia)) as Hd.
  assert (E : d = (1000 * (d / 1000))%Z) by lia.
  rewrite E at 2. rewrite mult_IZR. field.
Qed.

(** C3, as amended. The timeline built by the load: its duration [T] is
    the largest raw time stamp over the competitors kept, in seconds, cut
    down to whole microseconds ([T] is that stamp itself when it has no
    nanoseconds beyond a whole microsecond, and in any case lies less than
    a microsecond below it).  The timeline has [ceil (T * FPS)] time
    stamps, the one of index [i] is [i / FPS] (so the first is 0 and two
    consecutive ones differ by [1 / FPS]), and every one is strictly below
    [T], hence below the largest raw time stamp. *)
Theorem timeline_shape session g :
  load_and_synchronize_data session initial = Return g ->
  let T := total_seconds g in
  let N := length (times g) in
  let raw_max := Timedelta.total_seconds (max_duration session) in
  (exists item s, item ∈ survivors session /\ s ∈ item.2
                  /\ Timedelta.total_seconds (Time s) = raw_max)
  /\ (forall item s, item ∈ survivors session -> s ∈ item.2 ->
       (Timedelta.total_seconds (Time s) <= raw_max)%R)
  /\ T = Timedelta.scalar_total_seconds (max_duration session)
  /\ (T <= raw_max < T + 1 / 1000000)%R
  /\ ((max_duration session mod 1000 = 0)%Z -> T = raw_max)
  /\ N = Z.to_nat (Zceil (T * FPS))
  /\ ((0 <= T)%R -> Z.of_nat N = Zceil (T * FPS))
  /\ (forall i, (i < N)%nat -> times g !! i = Some (INR i / FPS)%R)
  /\ ((0 < N)%nat -> times g !! 0%nat = Some 0%R)
  /\ (forall i t t', times g !! i = Some t -> times g !! S i = Some t' ->
       (t' - t = 1 / FPS)%R)
  /\ (forall i t, times g !! i = Some t -> (t < T)%R /\ (t < raw_max)%R).
Proof.
  intros Hg T N raw_max.
  destruct (load_inv session g Hg) as (_ & Hs & _ & _ & HT & Ht).
  destruct (max_duration_is_max session Hs) as ((item & s & Hitem & Hin & Hmax) & Hle).
  fold T in HT, Ht.
  pose proof (scalar_total_seconds_bounds (max_duration session)) as Hb.
  rewrite <- HT in Hb. fold raw_max in Hb.
  assert (HN : N = Z.to_nat (Zceil (T * FPS))).
  { unfold N. rewrite Ht, arange_length. f_equal. f_equal.
    unfold FPS. field. }
  assert (Hlook : forall i, (i < N)%nat -> times g !! i = Some (INR i / FPS)%R).
  { intros i Hi. rewrite Ht, arange_lookup by (rewrite <- Ht; exact Hi).
    f_equal. unfold FPS. field. }
  assert (Hlt : forall i, (i < N)%nat -> (INR i / FPS < T)%R).
  { intros i Hi. pose proof (Zceil_bound (T * FPS)) as [Hc _].
    assert (Hz : (Z.of_nat i <= Zceil (T * FPS) - 1)%Z) by lia.
    apply IZR_le in Hz. rewrite minus_IZR, <- INR_IZR_INZ in Hz.
    unfold FPS in *. lra. }
  split; [exists item, s; repeat split; try assumption; unfold raw_max; now f_equal |].
  split; [intros it s' Hit Hs'; apply total_seconds_le; now apply (Hle it) |].
  split; [exact HT |]. split; [exact Hb |].
  split; [intros Hm; rewrite HT; now apply scalar_total_seconds_exact |].
  split; [exact HN |].
  split.
  { intros H0. rewrite HN. apply Z2Nat.id.
    pose proof (Zceil_bound (T * FPS)) as [_ Hc].
    apply le_IZR. unfold FPS in *. lra. }
  split; [exact Hlook |].
  split; [intros H0; rewrite (Hlook 0%nat H0); f_equal; simpl; unfold FPS; lra |].
  split.
  - intros i t t' Hi HSi.
    pose proof (lookup_lt_Some _ _ _ HSi) as Hlen. fold N in Hlen.
    rewrite Hlook in Hi by lia. rewrite Hlook in HSi by lia.
    assert (t = (INR i / FPS)%R) as -> by congruence.
    assert (t' = (INR (S i) / FPS)%R) as -> by congruence.
    rewrite S_INR. unfold FPS. lra.
  - intros i t Hi.
    pose proof (lookup_lt_Some _ _ _ Hi) as Hlen. fold N in Hlen.
    rewrite Hlook in Hi by lia.
    assert (t = (INR i / FPS)%R) as -> by congruence.
    specialize (Hlt i Hlen). lra.
Qed.

Lemma ninety_frames session g :
  load_and_synchronize_data session initial = Return g ->
  (max_duration session / 1000 = 1000000)%Z ->
  length (times g) = 90%nat.
Proof.
  intros Hg Hmax. destruct (load_inv session g Hg) as (_ & _ & _ & _ & HT & Ht).
  rewrite Ht, arange_length, HT. unfold Timedelta.scalar_total_seconds, FPS.
  rewrite Hmax. rewrite (Zceil_eq 90); [reflexivity |]. split.
  - apply (Rlt_le_trans _ 90); [lra |]. apply Req_le. field.
  - apply Req_le. field.
Qed.

(** C3 fails as stated: with raw time stamps 0 and 1000000001 ns the
    largest raw time stamp is 1.000000001 s, which asks for
    [ceil (90.00000009) = 91] time stamps; the load keeps 1.0 s as its
    duration and builds 90. *)
Lemma timeline_shorter_than_raw_duration :
  exists g,
    load_and_synchronize_data nano_session initial = Return g
    /\ max_duration nano_session = 1000000001%Z
    /\ length (times g) = 90%nat
    /\ Z.to_nat (Zceil (Timedelta.total_seconds (max_duration nano_session) * FPS))
       = 91%nat
    /\ length (times g)
       <> Z.to_nat (Zceil (Timedelta.total_seconds (max_duration nano_session) * FPS)).
Proof.
  assert (Hl : notna (laps nano_session) <> []) by discriminate.
  assert (Hs : survivors nano_session <> []) by discriminate.
  destruct (load_returns nano_session Hl Hs) as (g & Hg & _).
  assert (Hmax : max_duration nano_session = 1000000001%Z) by reflexivity.
  assert (H90 : length (times g) = 90%nat)
    by (apply (ninety_frames nano_session g Hg); reflexivity).
  assert (H91 : Z.to_nat (Zceil (Timedelta.total_seconds
                                   (max_duration nano_session) * FPS)) = 91%nat).
  { rewrite Hmax. unfold Timedelta.total_seconds, FPS.
    rewrite (Zceil_eq 91); [reflexivity |]. lra. }
  exists g. repeat (split; [assumption |]). rewrite H90, H91. discriminate.
Qed.

Lemma usable_false row :
  usable row = false
  <-> (exists e, lap.get_telemetry row = Raise e)
      \/ lap.get_telemetry row = Return None
      \/ lap.get_telemetry row = Return (Some []).
Proof.
  unfold usable, usable_telemetry.
  destruct (lap.get_telemetry row) as [e | [[| s tel] |]]; split;
    try (intros _; eauto; fail); try discriminate.
  intros [[e He] | [He | He]]; discriminate.
Qed.

Lemma filter_usable_split rows :
  (length (filter (fun r => usable r = true) rows)
   + length (filter (fun r => usable r = false) rows) = length rows)%nat.
Proof.
  induction rows as [|row rows IH]; [reflexivity |].
  rewrite !filter_cons. destruct (usable row); simpl.
  - destruct (decide (true = true)); [| contradiction].
    destruct (decide (true = false)); [discriminate |]. simpl. lia.
  - destruct (decide (false = true)); [discriminate |].
    destruct (decide (false = false)); [| contradiction]. simpl. lia.
Qed.

Lemma survivors_nil session :
  survivors session = []
  <-> Forall (fun r => usable r = false) (drivers_to_track session).
Proof.
  unfold survivors.
  induction (drivers_to_track session) as [|row rows IH].
  - split; [constructor | reflexivity].
  - rewrite omap_cons_option_list, Forall_cons. unfold usable at 1.
    destruct (usable_telemetry row); simpl.
    + split; [discriminate | intros [? _]; discriminate].
    + rewrite IH. tauto.
Qed.

Lemma survivors_length session :
  length (survivors session)
  = length (filter (fun r => usable r = true) (drivers_to_track session)).
Proof.
  unfold survivors. rewrite <- survivors_filter. now rewrite length_fmap.
Qed.

Lemma no_lap_no_candidate session :
  notna (laps session) = [] -> drivers_to_track session = [].
Proof. unfold drivers_to_track. intros ->. reflexivity. Qed.

Lemma produced_drivers session times items ds :
  Forall2 (produced session times) items ds ->
  Driver <$> ds = lap.Driver <$> items.*1.
Proof.
  induction 1 as [| item data items ds Hp _ IH]; [reflexivity |].
  rewrite !fmap_cons, IH. destruct Hp as (-> & _). reflexivity.
Qed.

(** C5. A candidate whose telemetry raises, is missing or is empty is left
    out and the load goes on: the load raises exactly when no lap has a lap
    time or no candidate has usable telemetry; when it returns, the
    records are those of the usable candidates, in their order; with five
    candidates of which exactly one is unusable the load returns four
    records. *)
Theorem load_skips_unusable session :
  (forall row,
     usable row = false
     <-> (exists e, lap.get_telemetry row = Raise e)
         \/ lap.get_telemetry row = Return None
         \/ lap.get_telemetry row = Return (Some []))
  /\ ((exists e, load_and_synchronize_data session initial = Raise e)
      <-> notna (laps session) = []
          \/ Forall (fun r => usable r = false) (drivers_to_track session))
  /\ (forall g,
        load_and_synchronize_data session initial = Return g ->
        Driver <$> all_interpolated_data g
        = lap.Driver <$> filter (fun r => usable r = true) (drivers_to_track session))
  /\ (length (drivers_to_track session) = 5%nat ->
      length (filter (fun r => usable r = false) (drivers_to_track session)) = 1%nat ->
      exists g,
        load_and_synchronize_data session initial = Return g
        /\ length (all_interpolated_data g) = 4%nat).
Proof.
  split; [exact usable_false |]. split; [| split].
  - split.
    + intros [e He].
      destruct (notna (laps session)) as [|l ls] eqn:Hl; [now left |].
      right. apply survivors_nil.
      destruct (survivors session) as [|it its] eqn:Hs; [reflexivity |].
      destruct (load_returns session) as (g & Hg & _); congruence.
    + intros H. destruct (load_raises session) as [msg Hm].
      * destruct H as [H | H]; [now left | right; now apply survivors_nil].
      * eauto.
  - intros g Hg. destruct (load_inv session g Hg) as (_ & _ & HF & _).
    rewrite (produced_drivers _ _ _ _ HF). unfold survivors.
    now rewrite survivors_filter.
  - intros H5 H1.
    pose proof (filter_usable_split (drivers_to_track session)) as Hsplit.
    pose proof (survivors_length session) as Hlen.
    destruct (load_returns session) as (g & Hg & HF & _).
    + intros H. apply no_lap_no_candidate in H. rewrite H in H5. discriminate.
    + intros H. rewrite H in Hlen. simpl in Hlen. lia.
    + exists g. split; [exact Hg |].
      apply Forall2_length in HF. lia.
Qed.

End engine.

(** ** Playback: pause, seek and reset *)

Section playback.

Implicit Types (g : Globals) (frame : Z) (frames : list Z).

Lemma update_paused frame g :
  is_paused g = true -> update frame g = (g, Return None).
Proof. intros Hp. unfold update. now rewrite Hp. Qed.

Lemma ticks_paused frames g :
  is_paused g = true -> ticks frames g = g.
Proof.
  intros Hp. unfold ticks. induction frames as [|f frames IH]; simpl.
  - reflexivity.
  - rewrite (update_paused f g Hp). simpl. exact IH.
Qed.

(** C8. Pause invariance: while the paused flag is set, any number of
    calls of [update] leaves the frame index as it was (and the pause
    itself in place). *)
Theorem paused_ticks_keep_frame frames g :
  is_paused g = true ->
  current_frame (ticks frames g) = current_frame g
  /\ is_paused (ticks frames g) = true.
Proof.
  intros Hp. rewrite (ticks_paused frames g Hp). split; [reflexivity | exact Hp].
Qed.

Lemma clamp_idem n v : clamp n (clamp n v) = clamp n v.
Proof. unfold clamp. lia. Qed.


Lemma slider_update_frame v g :
  current_frame (slider_update v g)
  = clamp (len_times g) (int (v / 100 * IZR (len_times g - 1))).
Proof. reflexivity. Qed.

Lemma set_val_silent v g :
  eventson (progress_slider g) = false ->
  set_val v g = set_progress_slider {| val := v; eventson := false |} g.
Proof. intros He. unfold set_val. simpl. now rewrite He. Qed.

(** An unpaused call that finds the seek flag set clears it and keeps the
    (clamped) frame, whatever the counter of the animation. *)
Lemma advance_after_seek frame g :
  slider_active g = true ->
  exists g',
    advance frame g = Return g'
    /\ slider_active g' = false
    /\ current_frame g' = clamp (len_times g) (current_frame g)
    /\ is_paused g' = is_paused g
    /\ times g' = times g.
Proof.
  intros Hs. unfold advance. rewrite Hs. simpl.
  rewrite set_val_silent by reflexivity.
  eexists. split; [reflexivity |]. simpl. repeat split.
Qed.

(** C10. A call of [update] while paused leaves the seek flag and the
    frame index as they are; [slider_update] moves the frame at once even
    while paused; the flag it sets outlives every paused call and is
    cleared by the first call after the pause ends, which keeps the frame
    of the seek whatever the counter of the animation says. *)
Theorem seek_during_pause_survives v frames frame g :
  is_paused g = true ->
  let seeked := slider_update v g in
  (forall f, update f seeked = (seeked, Return None))
  /\ current_frame seeked
     = clamp (len_times g) (int (v / 100 * IZR (len_times g - 1)))
  /\ slider_active seeked = true
  /\ ticks frames seeked = seeked
  /\ let resumed := (update frame (pause_callback (ticks frames seeked))).1 in
     slider_active resumed = false
     /\ current_frame resumed = current_frame seeked.
Proof.
  intros Hp seeked.
  assert (Hps : is_paused seeked = true) by exact Hp.
  split; [intros f; now apply update_paused |].
  split; [reflexivity |]. split; [reflexivity |].
  split; [now apply ticks_paused |].
  rewrite (ticks_paused frames seeked Hps). cbv zeta.
  unfold update.
  replace (is_paused (pause_callback seeked)) with false
    by (unfold pause_callback; simpl; now rewrite Hp).
  destruct (advance_after_seek frame (pause_callback seeked) eq_refl)
    as (g' & Hadv & Hflag & Hframe & _).
  rewrite Hadv. simpl. split; [exact Hflag |].
  rewrite Hframe. change (len_times (pause_callback seeked)) with (len_times g).
  change (current_frame (pause_callback seeked)) with (current_frame seeked).
  subst seeked. rewrite slider_update_frame. apply clamp_idem.
Qed.

Lemma int_nonneg (x : R) : (0 <= x)%R -> int x = Zfloor x.
Proof. intros Hx. unfold int. destruct (decide (0 <= x)%R); [reflexivity | contradiction]. Qed.

Lemma int_0 : int 0 = 0%Z.
Proof. rewrite int_nonneg by lra. apply (ZfloorZ 0). Qed.

Lemma int_within (x : R) (n : Z) :
  (0 <= x <= IZR n)%R -> (0 <= int x <= n)%Z.
Proof.
  intros [H0 Hn]. rewrite int_nonneg by assumption. split.
  - apply Zfloor_lub. exact H0.
  - rewrite <- (ZfloorZ n). now apply Zfloor_le.
Qed.

(** What [reset_callback] does: the frame goes to 0 and the pause is kept,
    but [set_val(0)] runs with [eventson] set, so [slider_update(0)] is
    called and sets [slider_active] again. *)
Lemma reset_callback_effect g :
  eventson (progress_slider g) = true ->
  current_frame (reset_callback g) = 0%Z
  /\ slider_active (reset_callback g) = true
  /\ is_paused (reset_callback g) = is_paused g.
Proof.
  intros He. unfold reset_callback, set_val. simpl. rewrite He.
  split; [| split; reflexivity].
  rewrite slider_update_frame.
  replace (0 / 100 * IZR _)%R with 0%R by lra.
  rewrite int_0. unfold clamp. lia.
Qed.

(** C4, as amended. On a non-empty timeline of [N] frames and for a
    fraction in [0, 100], [slider_update] sets the frame index to the
    integer part (the truncation of [int], not the rounding) of the
    product [fraction / 100 * (N - 1)] as the doubles give it: the integer
    part of a number within a relative [2 ^ -50] of the exact product.
    The index lies in [0, N - 1] and the seek flag is set; fraction 0
    gives frame 0 and fraction 100 gives frame [N - 1]. *)
Theorem seek_truncates v g :
  (0 <= v <= 100)%R ->
  times g <> [] ->
  let N := len_times g in
  let product := (v / 100 * IZR (N - 1))%R in
  (exists p : R,
     (Rabs (p - product) <= product / 2 ^ 50)%R
     /\ current_frame (slider_update v g) = Zfloor p)
  /\ (0 <= current_frame (slider_update v g) <= N - 1)%Z
  /\ slider_active (slider_update v g) = true
  /\ current_frame (slider_update 0 g) = 0%Z
  /\ current_frame (slider_update 100 g) = (N - 1)%Z.
Proof.
  intros Hv Ht N product.
  assert (HN : (1 <= N)%Z).
  { unfold N, len_times. destruct (times g); [contradiction | simpl length; lia]. }
  assert (HR : (0 <= IZR (N - 1))%R) by (apply IZR_le; lia).
  assert (Hx : (0 <= product <= IZR (N - 1))%R) by (unfold product; nra).
  pose proof (int_within _ _ Hx) as Hi.
  rewrite !slider_update_frame. fold N. fold product.
  split; [| split; [| split; [| split]]].
  - exists product. split.
    + replace (product - product)%R with 0%R by ring. rewrite Rabs_R0.
      apply Rmult_le_pos; [apply Hx |].
      apply Rlt_le, Rinv_0_lt_compat, pow_lt. lra.
    + unfold clamp. rewrite <- int_nonneg by apply Hx. lia.
  - unfold clamp. lia.
  - reflexivity.
  - replace (0 / 100 * IZR (N - 1))%R with 0%R by lra.
    rewrite int_0. unfold clamp. lia.
  - replace (100 / 100 * IZR (N - 1))%R with (IZR (N - 1)) by lra.
    rewrite int_nonneg by exact HR. rewrite ZfloorZ. unfold clamp. lia.
Qed.

(** C9, at a running replay of four frames: after [reset_callback] the
    frame index is 0 and the pause flag is as before, but the seek flag is
    set, not cleared. *)
Theorem reset_leaves_seek_flag_set :
  slider_active playing_at_2 = false
  /\ current_frame (reset_callback playing_at_2) = 0%Z
  /\ is_paused (reset_callback playing_at_2) = is_paused playing_at_2
  /\ slider_active (reset_callback playing_at_2) = true.
Proof.
  destruct (reset_callback_effect playing_at_2 eq_refl) as (H0 & Hs & Hp).
  split; [reflexivity |]. split; [exact H0 |]. split; [exact Hp | exact Hs].
Qed.

(** C4 fails as stated: with four frames, fraction 60 asks for
    [60 / 100 * 3 = 1.8]; the code sets frame 1, the rounding is 2. *)
Lemma seek_is_not_rounding :
  current_frame (slider_update 60 playing_at_2) = 1%Z
  /\ ~ spec_seek_frame 60 (len_times playing_at_2)
        (current_frame (slider_update 60 playing_at_2)).
Proof.
  assert (H1 : current_frame (slider_update 60 playing_at_2) = 1%Z).
  { rewrite slider_update_frame.
    change (len_times playing_at_2 - 1)%Z with 3%Z.
    change (len_times playing_at_2) with 4%Z.
    rewrite int_nonneg by lra.
    rewrite (Zfloor_eq 1) by lra. reflexivity. }
  split; [exact H1 |]. rewrite H1.
  change (len_times playing_at_2) with 4%Z.
  intros (r & Hr & Hc). unfold nearest_integer in Hr.
  change (4 - 1)%Z with 3%Z in Hr.
  assert (1 < r < 3)%Z as Hb.
  { unfold Rabs in Hr. destruct (Rcase_abs _) in Hr; split; apply lt_IZR; lra. }
  unfold clamp in Hc. lia.
Qed.

End playback.

(** ** The live gap of the ghost view *)

Section gap.

Implicit Types (g : Globals) (A B : Data) (cf : nat) (a b ms : R).

Lemma divisor_pos A B cf ms : (divisor A B cf ms > 0)%R.
Proof.
  unfold divisor.
  destruct (Speed_interp A !! cf), (Speed_interp B !! cf);
    repeat case_decide; lra.
Qed.

Lemma divisor_swap A B cf ms : divisor A B cf ms = divisor B A cf ms.
Proof.
  unfold divisor.
  destruct (Speed_interp A !! cf) as [s1|], (Speed_interp B !! cf) as [s2|];
    try reflexivity.
  rewrite (Rplus_comm s2 s1). reflexivity.
Qed.

Lemma live_gap_fields A B cf a b ms :
  let G := live_gap A B cf a b ms in
  distance_gap G = (a - b)%R
  /\ avg_speed_mps G = divisor A B cf ms
  /\ time_gap G = (Rabs (a - b) / divisor A B cf ms)%R
  /\ ahead G = (if decide (Rabs (a - b) < 1)%R then side_by_side
                else if decide (a - b > 0)%R then driver1_ahead else driver2_ahead)
  /\ text G = (if decide (Rabs (a - b) < 1)%R then GapSideBySide
               else if decide (a - b > 0)%R
                    then GapAheadBy (Driver A) (Rabs (a - b) / divisor A B cf ms)
                    else GapAheadBy (Driver B) (Rabs (a - b) / divisor A B cf ms)).
Proof.
  pose proof (divisor_pos A B cf ms) as Hpos.
  unfold live_gap. fold (divisor A B cf ms).
  destruct (decide (divisor A B cf ms > 0)%R); [| contradiction].
  destruct (decide (Rabs (a - b) < 1)%R); [| destruct (decide (a - b > 0)%R)];
    simpl; repeat split.
Qed.

(** The gap block runs exactly when the ghost view is on with two drivers;
    it is then [live_gap] of the two. *)
Lemma draw_gap_inv g d G :
  draw g = Return d ->
  gap_text d = Some G ->
  exists A B a b ms,
    ghost_mode_on g = true
    /\ current_drivers_data g = [A; B]
    /\ G = live_gap A B (Z.to_nat (current_frame g)) a b ms.
Proof.
  unfold draw. intros Hd HG.
  destruct (for_each _ _ _) as [e | [[ms dists] ds]]; simpl in Hd; [discriminate |].
  inversion Hd; subst d; clear Hd. simpl in HG.
  destruct (ghost_mode_on g); [| discriminate].
  destruct (current_drivers_data g) as [| A [| B [| ? ?]]]; try discriminate.
  destruct dists as [| a [| b [| ? ?]]]; try discriminate.
  inversion HG. exists A, B, a, b, ms. repeat split.
Qed.

(** C7. Whenever [update] computes a gap, its divisor is positive: it is
    the average speed in m/s when that average is above zero and 1 m/s
    when the average is zero or less; the time gap is the distance gap's
    magnitude over that divisor and is not negative. *)
Theorem gap_divisor_guard g d G :
  draw g = Return d ->
  gap_text d = Some G ->
  (avg_speed_mps G > 0)%R
  /\ time_gap G = (Rabs (distance_gap G) / avg_speed_mps G)%R
  /\ (0 <= time_gap G)%R
  /\ exists driver1 driver2,
       current_drivers_data g = [driver1; driver2]
       /\ forall speed1 speed2,
            Speed_interp driver1 !! Z.to_nat (current_frame g) = Some speed1 ->
            Speed_interp driver2 !! Z.to_nat (current_frame g) = Some speed2 ->
            (((speed1 + speed2) / 2 <= 0)%R -> avg_speed_mps G = 1%R)
            /\ (((speed1 + speed2) / 2 > 0)%R ->
                avg_speed_mps G = ((speed1 + speed2) / 2 / 3.6)%R).
Proof.
  intros Hd HG.
  destruct (draw_gap_inv g d G Hd HG) as (A & B & a & b & ms & _ & Hcur & ->).
  set (cf := Z.to_nat (current_frame g)).
  destruct (live_gap_fields A B cf a b ms) as (Hdg & Hav & Htg & _).
  pose proof (divisor_pos A B cf ms) as Hpos.
  rewrite Hdg, Hav, Htg.
  split; [exact Hpos |]. split; [reflexivity |]. split.
  - apply Rmult_le_pos; [apply Rabs_pos |].
    apply Rlt_le, Rinv_0_lt_compat. exact Hpos.
  - exists A, B. split; [exact Hcur |].
    intros s1 s2 H1 H2. unfold divisor. rewrite H1, H2.
    split; intros Hs; case_decide; try reflexivity; lra.
Qed.

Lemma draw_driver_aligned N A cf ms dists ds :
  aligned N A -> (cf < N)%nat ->
  exists x y s a,
    X_interp A !! cf = Some x /\ Y_interp A !! cf = Some y
    /\ Speed_interp A !! cf = Some s /\ CumulativeDistance A !! cf = Some a
    /\ draw_driver cf (ms, dists, ds) A
       = Return (py_max ms s, dists ++ [a], ds ++ [Some (x, y)]).
Proof.
  intros (HX & HY & HS & HC) Hcf. unfold draw_driver.
  destruct (getitem_lt (X_interp A) cf) as (x & Hx & Ex); [lia |].
  destruct (getitem_lt (Y_interp A) cf) as (y & Hy & Ey); [lia |].
  destruct (getitem_lt (Speed_interp A) cf) as (s0 & Hs & Es); [lia |].
  destruct (getitem_lt (CumulativeDistance A) cf) as (a & Ha & Ea); [lia |].
  exists x, y, s0, a. repeat (split; [assumption |]).
  destruct (decide (cf < length (X_interp A))%nat); [| lia].
  rewrite Ex, Ey, Es. simpl. rewrite Ea. reflexivity.
Qed.

Lemma draw_ghost_view N g A B cf :
  aligned N A -> aligned N B -> (cf < N)%nat ->
  exists d a b ms,
    draw (ghost_view g A B cf) = Return d
    /\ CumulativeDistance A !! cf = Some a
    /\ CumulativeDistance B !! cf = Some b
    /\ gap_text d = Some (live_gap A B cf a b ms).
Proof.
  intros HA HB Hcf.
  destruct (draw_driver_aligned N A cf 0%R [] [] HA Hcf)
    as (xa & ya & sa & a & _ & _ & _ & Ha & Ea).
  destruct (draw_driver_aligned N B cf (py_max 0 sa) ([] ++ [a])
              ([] ++ [Some (xa, ya)]) HB Hcf)
    as (xb & yb & sb & b & _ & _ & _ & Hb & Eb).
  unfold draw.
  change (current_drivers_data (ghost_view g A B cf)) with [A; B].
  change (current_frame (ghost_view g A B cf)) with (Z.of_nat cf).
  change (ghost_mode_on (ghost_view g A B cf)) with true.
  rewrite Nat2Z.id. cbn [for_each bind].
  rewrite Ea. cbn [bind]. rewrite Eb. cbn [bind app].
  eexists _, a, b, _. split; [reflexivity |]. repeat split; assumption.
Qed.

(** C6, as amended. Gap symmetry: for two aligned records and a frame of
    the timeline, the gap of (A, B) and the gap of (B, A) carry the same
    time gap; both say side by side exactly when the cumulative distances
    at the frame differ by less than 1; otherwise both name the same
    competitor as ahead, the one further along, one ordering through its
    first driver and the other through its second. *)
Theorem gap_symmetry N g A B cf :
  aligned N A -> aligned N B -> (cf < N)%nat ->
  exists dAB dBA GAB GBA a b,
    draw (ghost_view g A B cf) = Return dAB
    /\ draw (ghost_view g B A cf) = Return dBA
    /\ gap_text dAB = Some GAB /\ gap_text dBA = Some GBA
    /\ CumulativeDistance A !! cf = Some a
    /\ CumulativeDistance B !! cf = Some b
    /\ time_gap GAB = time_gap GBA
    /\ (ahead GAB = side_by_side <-> (Rabs (a - b) < 1)%R)
    /\ (ahead GBA = side_by_side <-> (Rabs (a - b) < 1)%R)
    /\ (ahead GAB = driver1_ahead <-> ahead GBA = driver2_ahead)
    /\ (ahead GAB = driver2_ahead <-> ahead GBA = driver1_ahead)
    /\ (ahead GAB = driver1_ahead ->
        (b < a)%R /\ text GAB = GapAheadBy (Driver A) (time_gap GAB)
        /\ text GBA = GapAheadBy (Driver A) (time_gap GBA))
    /\ (ahead GAB = driver2_ahead ->
        (a < b)%R /\ text GAB = GapAheadBy (Driver B) (time_gap GAB)
        /\ text GBA = GapAheadBy (Driver B) (time_gap GBA)).
Proof.
  intros HA HB Hcf.
  destruct (draw_ghost_view N g A B cf HA HB Hcf)
    as (dAB & a & b & ms & EAB & Ha & Hb & GAB).
  destruct (draw_ghost_view N g B A cf HB HA Hcf)
    as (dBA & b' & a' & ms' & EBA & Hb' & Ha' & GBA).
  assert (a' = a) as -> by congruence. assert (b' = b) as -> by congruence.
  exists dAB, dBA, (live_gap A B cf a b ms), (live_gap B A cf b a ms'), a, b.
  repeat (split; [assumption |]).
  destruct (live_gap_fields A B cf a b ms) as (_ & _ & T1 & L1 & X1).
  destruct (live_gap_fields B A cf b a ms') as (_ & _ & T2 & L2 & X2).
  assert (Hdiv : divisor B A cf ms' = divisor A B cf ms).
  { unfold divisor.
    destruct HA as (_ & _ & HA & _), HB as (_ & _ & HB & _).
    destruct (lookup_lt_is_Some_2 (Speed_interp A) cf) as [s1 ->]; [lia |].
    destruct (lookup_lt_is_Some_2 (Speed_interp B) cf) as [s2 ->]; [lia |].
    rewrite (Rplus_comm s2 s1). reflexivity. }
  rewrite T1, T2, L1, L2, X1, X2, Hdiv, (Rabs_minus_sym b a).
  destruct (decide (Rabs (a - b) < 1)%R) as [Hs | Hs].
  - repeat split; intros; try discriminate; try assumption; try reflexivity.
  - assert (Hab : (a - b >= 1 \/ b - a >= 1)%R).
    { unfold Rabs in Hs. destruct (Rcase_abs (a - b)); [right | left]; lra. }
    destruct (decide (a - b > 0)%R), (decide (b - a > 0)%R); try lra;
      repeat split; intros; try discriminate; try contradiction;
      try reflexivity; try lra.
Qed.

(** C6 fails as stated: at frame 1 the two records are 10 and 5 along;
    the gap of (VER, ALO) and the gap of (ALO, VER) both say that VER is
    ahead, not one of each competitor. *)
Lemma gap_names_the_same_driver :
  exists dAB dBA GAB GBA,
    draw (ghost_view initial ver alo 1) = Return dAB
    /\ draw (ghost_view initial alo ver 1) = Return dBA
    /\ gap_text dAB = Some GAB /\ gap_text dBA = Some GBA
    /\ names_ahead GAB "VER" /\ names_ahead GBA "VER"
    /\ ~ spec_opposite_attribution ver alo GAB GBA.
Proof.
  assert (Hver : aligned 2 ver) by (repeat split).
  assert (Halo : aligned 2 alo) by (repeat split).
  destruct (draw_ghost_view 2 initial ver alo 1 Hver Halo ltac:(lia))
    as (dAB & a & b & ms & EAB & Ha & Hb & GAB).
  destruct (draw_ghost_view 2 initial alo ver 1 Halo Hver ltac:(lia))
    as (dBA & b' & a' & ms' & EBA & Hb' & Ha' & GBA).
  assert (a = 10%R) as -> by (simpl in Ha; congruence).
  assert (b = 5%R) as -> by (simpl in Hb; congruence).
  assert (a' = 10%R) as -> by (simpl in Ha'; congruence).
  assert (b' = 5%R) as -> by (simpl in Hb'; congruence).
  destruct (live_gap_fields ver alo 1 10 5 ms) as (_ & _ & _ & _ & X1).
  destruct (live_gap_fields alo ver 1 5 10 ms') as (_ & _ & _ & _ & X2).
  assert (R1 : Rabs (10 - 5) = 5%R) by (rewrite Rabs_pos_eq; lra).
  assert (R2 : Rabs (5 - 10) = 5%R)
    by (rewrite Rabs_minus_sym, Rabs_pos_eq; lra).
  rewrite R1 in X1. rewrite R2 in X2.
  destruct (decide (5 < 1)%R) as [Hlt | _]; [lra |].
  destruct (decide (10 - 5 > 0)%R) as [_ | Hn]; [| lra].
  destruct (decide (5 - 10 > 0)%R) as [Hp | _]; [lra |].
  assert (N1 : names_ahead (live_gap ver alo 1 10 5 ms) "VER")
    by (eexists; exact X1).
  assert (N2 : names_ahead (live_gap alo ver 1 5 10 ms') "VER")
    by (eexists; exact X2).
  exists dAB, dBA, (live_gap ver alo 1 10 5 ms), (live_gap alo ver 1 5 10 ms').
  repeat (split; [assumption |]).
  intros [((t1 & H1) & (t2 & H2)) | ((t1 & H1) & (t2 & H2))].
  - rewrite X2 in H2. discriminate H2.
  - rewrite X1 in H1. discriminate H1.
Qed.

End gap.

(** ** Instances *)

(** *** Playback *)

Lemma paused_ticks_keep_frame_witness :
  current_frame (ticks [3; 4; 5]%Z paused_at_2) = 2%Z
  /\ is_paused (ticks [3; 4; 5]%Z paused_at_2) = true.
Proof. apply (paused_ticks_keep_frame [3; 4; 5]%Z paused_at_2). reflexivity. Defined.

Lemma seek_during_pause_survives_witness :
  let seeked := slider_update 50 paused_at_2 in
  (forall f, update f seeked = (seeked, Return None))
  /\ current_frame seeked
     = clamp (len_times paused_at_2) (int (50 / 100 * IZR (len_times paused_at_2 - 1)))
  /\ slider_active seeked = true
  /\ ticks [3; 4]%Z seeked = seeked
  /\ let resumed := (update 5 (pause_callback (ticks [3; 4]%Z seeked))).1 in
     slider_active resumed = false
     /\ current_frame resumed = current_frame seeked.
Proof.
  apply (seek_during_pause_survives 50 [3; 4]%Z 5 paused_at_2). reflexivity.
Defined.

Lemma seek_truncates_witness :
  let N := len_times playing_at_2 in
  let product := (60 / 100 * IZR (N - 1))%R in
  (exists p : R,
     (Rabs (p - product) <= product / 2 ^ 50)%R
     /\ current_frame (slider_update 60 playing_at_2) = Zfloor p)
  /\ (0 <= current_frame (slider_update 60 playing_at_2) <= N - 1)%Z
  /\ slider_active (slider_update 60 playing_at_2) = true
  /\ current_frame (slider_update 0 playing_at_2) = 0%Z
  /\ current_frame (slider_update 100 playing_at_2) = (N - 1)%Z.
Proof.
  apply (seek_truncates 60 playing_at_2); [lra | discriminate].
Defined.

(** *** A session of five candidates, one without telemetry *)

Lemma demo_candidates :
  lap.Driver <$> drivers_to_track demo_session = ["VER"; "ALO"; "LEC"; "OCO"; "SAI"].
Proof. reflexivity. Qed.

Lemma demo_has_laps : notna (laps demo_session) <> [].
Proof. discriminate. Qed.

Lemma demo_has_survivors : survivors demo_session <> [].
Proof. discriminate. Qed.

Lemma load_skips_unusable_witness :
  exists g,
    load_and_synchronize_data demo_session initial = Return g
    /\ length (all_interpolated_data g) = 4%nat.
Proof.
  apply (proj2 (proj2 (proj2 (load_skips_unusable demo_session)))); reflexivity.
Defined.

Lemma cumulative_distance_law_witness :
  exists g data,
    load_and_synchronize_data demo_session initial = Return g
    /\ data ∈ all_interpolated_data g
    /\ length (CumulativeDistance data) = length (times g).
Proof.
  destruct (load_returns demo_session demo_has_laps demo_has_survivors)
    as (g & Hg & HF & _).
  destruct (all_interpolated_data g) as [|data ds] eqn:Hall.
  - apply Forall2_length in HF. discriminate HF.
  - assert (Hin : data ∈ all_interpolated_data g) by (rewrite Hall; left).
    exists g, data. split; [exact Hg |]. split; [exact Hin |].
    exact (proj1 (cumulative_distance_law demo_session g data Hg Hin)).
Defined.

Lemma timeline_shape_witness :
  exists g,
    load_and_synchronize_data demo_session initial = Return g
    /\ length (times g) = Z.to_nat (Zceil (total_seconds g * FPS)).
Proof.
  destruct (load_returns demo_session demo_has_laps demo_has_survivors)
    as (g & Hg & _).
  exists g. split; [exact Hg |].
  exact (proj1 (proj2 (proj2 (proj2 (proj2 (proj2
           (timeline_shape demo_session g Hg))))))).
Defined.

Lemma resampling_within_raw_range_witness :
  exists x_interp y_interp speed_interp,
    interpolate_telemetry (straight 10) [0; 1 / 2; 2]%R
    = Return (x_interp, y_interp, speed_interp)
    /\ length x_interp = 3%nat.
Proof.
  destruct (resampling_within_raw_range (straight 10) [0; 1 / 2; 2]%R)
    as (xs & ys & ss & E & Lx & _).
  - discriminate.
  - repeat constructor. simpl. lia.
  - exists xs, ys, ss. split; [exact E | exact Lx].
Defined.

(** *** The ghost view of two records *)

Lemma ver_aligned : aligned 2 ver.
Proof. repeat split. Qed.

Lemma alo_aligned : aligned 2 alo.
Proof. repeat split. Qed.

Lemma gap_symmetry_witness :
  exists dAB dBA GAB GBA,
    draw (ghost_view initial ver alo 1) = Return dAB
    /\ draw (ghost_view initial alo ver 1) = Return dBA
    /\ gap_text dAB = Some GAB /\ gap_text dBA = Some GBA
    /\ time_gap GAB = time_gap GBA.
Proof.
  destruct (gap_symmetry 2 initial ver alo 1 ver_aligned alo_aligned)
    as (dAB & dBA & GAB & GBA & a & b & H1 & H2 & H3 & H4 & _ & _ & Ht & _).
  - lia.
  - exists dAB, dBA, GAB, GBA. auto.
Defined.

Lemma gap_divisor_guard_witness :
  exists d G,
    draw (ghost_view initial ver alo 1) = Return d
    /\ gap_text d = Some G
    /\ (avg_speed_mps G > 0)%R.
Proof.
  destruct (draw_ghost_view 2 initial ver alo 1 ver_aligned alo_aligned)
    as (d & a & b & ms & Hd & _ & _ & HG).
  - lia.
  - exists d, (live_gap ver alo 1 a b ms).
    split; [exact Hd |]. split; [exact HG |].
    exact (proj1 (gap_divisor_guard _ d _ Hd HG)).
Defined.

(** * Further properties *)

(** ** The replay as a state machine *)

Section machine.

Implicit Types (g : Globals) (e : event) (frame : Z).

Lemma clamp_bounds n v : (0 <= clamp n v <= Z.max 0 (n - 1))%Z.
Proof. unfold clamp. lia. Qed.

Lemma clamp_inside n v : (0 <= v <= Z.max 0 (n - 1))%Z -> clamp n v = v.
Proof. unfold clamp. lia. Qed.

(** The effect of the frame-moving part of [update]. *)
Lemma advance_effect frame g g' :
  advance frame g = Return g' ->
  same_data g g'
  /\ current_drivers_data g' = current_drivers_data g
  /\ is_paused g' = is_paused g
  /\ ghost_mode_on g' = ghost_mode_on g
  /\ slider_active g' = false
  /\ eventson (progress_slider g') = true
  /\ current_frame g'
     = clamp (len_times g)
         (if slider_active g then current_frame g else (frame mod len_times g)%Z)
  /\ val (progress_slider g') = progress_percentage g'.
Proof.
  unfold advance. intros H.
  destruct (slider_active g) eqn:Hs; cbn [negb bind] in H.
  - rewrite set_val_silent in H by reflexivity.
    inversion H; subst g'; clear H. unfold same_data. simpl.
    repeat split.
  - destruct (decide (len_times g = 0%Z)); [discriminate |]. cbn [bind] in H.
    rewrite set_val_silent in H by reflexivity.
    inversion H; subst g'; clear H. unfold same_data. simpl.
    repeat split. exact Hs.
Qed.

Lemma advance_returns frame g :
  slider_active g = true \/ times g <> [] ->
  exists g', advance frame g = Return g'.
Proof.
  intros H. unfold advance.
  destruct (slider_active g); cbn [negb bind].
  - eexists. reflexivity.
  - destruct H as [H | H]; [discriminate |].
    destruct (decide (len_times g = 0%Z)) as [H0 | _].
    + unfold len_times in H0. destruct (times g); [contradiction | discriminate].
    + cbn [bind]. eexists. reflexivity.
Qed.

Lemma update_effect frame g :
  let g' := (update frame g).1 in
  same_data g g'
  /\ current_drivers_data g' = current_drivers_data g
  /\ is_paused g' = is_paused g
  /\ ghost_mode_on g' = ghost_mode_on g
  /\ (eventson (progress_slider g) = true -> eventson (progress_slider g') = true)
  /\ ((0 <= current_frame g <= Z.max 0 (len_times g - 1))%Z ->
      (0 <= current_frame g' <= Z.max 0 (len_times g - 1))%Z).
Proof.
  unfold update. destruct (is_paused g) eqn:Hp.
  - simpl. unfold same_data. repeat split; intros; try assumption; lia.
  - destruct (advance frame g) as [e | g1] eqn:Ha; simpl.
    + unfold same_data. repeat split; intros; try assumption; lia.
    + destruct (advance_effect frame g g1 Ha)
        as (Hd & Hc & Hp' & Hg & _ & He & Hf & _).
      pose proof (clamp_bounds (len_times g)
        (if slider_active g then current_frame g else (frame mod len_times g)%Z)).
      rewrite <- Hf in H.
      repeat split; intros; try assumption; try apply Hd; try congruence; lia.
Qed.

Lemma set_val_effect v g :
  eventson (progress_slider g) = true ->
  let g' := set_val v g in
  same_data g g'
  /\ current_drivers_data g' = current_drivers_data g
  /\ is_paused g' = is_paused g
  /\ ghost_mode_on g' = ghost_mode_on g
  /\ eventson (progress_slider g') = true
  /\ slider_active g' = true
  /\ current_frame g' = clamp (len_times g) (int (v / 100 * IZR (len_times g - 1)))
  /\ val (progress_slider g') = v.
Proof.
  intros He. unfold set_val. simpl. rewrite He. unfold same_data. simpl.
  repeat split; try exact He.
Qed.

Lemma ghost_mode_callback_effect g :
  let g' := ghost_mode_callback g in
  same_data g g'
  /\ is_paused g' = is_paused g
  /\ slider_active g' = slider_active g
  /\ progress_slider g' = progress_slider g
  /\ ((2 <= length (all_interpolated_data g))%nat \/ ghost_mode_on g = true ->
      ghost_mode_on g' = negb (ghost_mode_on g)
      /\ current_frame g' = 0%Z
      /\ current_drivers_data g'
         = (if ghost_mode_on g' then take 2 (all_interpolated_data g)
            else all_interpolated_data g))
  /\ ((length (all_interpolated_data g) < 2)%nat -> ghost_mode_on g = false ->
      g' = g).
Proof.
  unfold ghost_mode_callback, same_data.
  destruct (ghost_mode_on g) eqn:Hg; simpl.
  - repeat split; intros; try discriminate; reflexivity.
  - destruct (decide (2 <= length (all_interpolated_data g))%nat) as [H2 | H2]; simpl.
    + repeat split; intros; try lia.
    + repeat split; intros; try reflexivity.
      * destruct H as [H | H]; [lia | discriminate].
      * destruct H as [H | H]; [lia | discriminate].
      * destruct H as [H | H]; [lia | discriminate].
      * destruct g; simpl in *. now subst.
Qed.

Lemma consistent_transfer g g' :
  consistent g ->
  same_data g g' ->
  current_drivers_data g' = current_drivers_data g ->
  ghost_mode_on g' = ghost_mode_on g ->
  (0 <= current_frame g' <= Z.max 0 (len_times g - 1))%Z ->
  eventson (progress_slider g') = true ->
  consistent g'.
Proof.
  intros (Ha & Ht & Hc & Hg & _ & _) (Et & Es & Ed) Ec Eg Hf He.
  unfold consistent. unfold len_times in *. rewrite Et, Es, Ed, Ec, Eg.
  repeat split; auto; lia.
Qed.

(** Every event of a replay keeps its state consistent and leaves the
    timeline, the duration and the records of the load untouched. *)
Lemma handle_keeps_consistent g e :
  consistent g ->
  consistent (handle g e) /\ same_data g (handle g e).
Proof.
  intros Hc. pose proof Hc as (Ha & Ht & Hcur & Hgh & Hf & He).
  destruct e as [frame | | | | v]; cbn [handle].
  - destruct (update_effect frame g) as (Hd & Hc' & _ & Hg' & He' & Hf').
    split; [| exact Hd].
    apply (consistent_transfer g); auto.
  - split; [| unfold same_data; repeat split].
    apply (consistent_transfer g); auto. unfold same_data. repeat split.
  - unfold reset_callback.
    set (g0 := set_slider_active false (set_current_frame 0 g)).
    destruct (set_val_effect 0 g0 He) as (Hd & Hc' & _ & Hg' & He' & _ & Hf' & _).
    split; [| exact Hd].
    apply (consistent_transfer g); auto.
    rewrite Hf'. apply clamp_bounds.
  - destruct (ghost_mode_callback_effect g) as (Hd & _ & _ & Hs & Hon & Hoff).
    split; [| exact Hd].
    destruct Hd as (Et & Es & Ed).
    destruct (decide (2 <= length (all_interpolated_data g))%nat) as [H2 | H2].
    + destruct (Hon (or_introl H2)) as (Eg & Ef & Ecur).
      unfold consistent, len_times. rewrite Et, Es, Ed, Ef, Hs, Ecur.
      repeat split; try assumption; try lia.
    + destruct (ghost_mode_on g) eqn:Hg0; [specialize (Hgh eq_refl); lia |].
      rewrite Hoff by (congruence || lia). exact Hc.
  - destruct (set_val_effect v g He) as (Hd & Hc' & _ & Hg' & He' & _ & Hf' & _).
    split; [| exact Hd].
    apply (consistent_transfer g); auto.
    rewrite Hf'. apply clamp_bounds.
Qed.

End machine.

(** ** The state the load leaves, and the steps that follow *)

Section replay.

Implicit Types (g : Globals) (session : Session) (frame : Z).

Lemma survivors_at_most session :
  (length (survivors session) <= NUM_DRIVERS)%nat.
Proof.
  rewrite survivors_length.
  etransitivity; [apply length_filter |].
  unfold drivers_to_track. rewrite length_take. lia.
Qed.

Lemma load_consistent session g :
  load_and_synchronize_data session initial = Return g ->
  consistent g
  /\ length (all_interpolated_data g) = length (survivors session).
Proof.
  intros Hg.
  assert (Hflags : current_frame g = 0%Z /\ ghost_mode_on g = false
                   /\ eventson (progress_slider g) = true).
  { revert Hg. unfold load_and_synchronize_data.
    destruct (decide _); [discriminate |].
    destruct (prefetch _) as [[| m ms] raw]; [discriminate |].
    destruct (for_each _ _ _) as [e | ds]; [discriminate |]. cbn [bind].
    destruct (decide _); [discriminate |].
    intros H. injection H as <-. simpl. repeat split. }
  destruct Hflags as (Hf & Hgh & He).
  destruct (load_inv session g Hg) as (_ & _ & HF & Hcur & HT & Ht).
  split; [| symmetry; now apply Forall2_length in HF].
  unfold consistent. rewrite Hgh, Hf, He, Hcur.
  split; [| repeat split; try assumption; try discriminate; lia].
  apply Forall_forall. intros data Hin.
  destruct (loaded_record session g data Hg Hin) as (item & Hs & Hp).
  destruct (produced_aligned session (times g) item data
              (survivors_nonempty session item Hs) Hp)
    as (Lx & Ly & Ls & Ld & _).
  repeat split; assumption.
Qed.

Lemma load_starts_flags session g :
  load_and_synchronize_data session initial = Return g ->
  current_frame g = 0%Z /\ is_paused g = false /\ slider_active g = false
  /\ ghost_mode_on g = false /\ eventson (progress_slider g) = true.
Proof.
  unfold load_and_synchronize_data.
  destruct (decide _); [discriminate |].
  destruct (prefetch _) as [[| m ms] raw]; [discriminate |].
  destruct (for_each _ _ _) as [e | ds]; [discriminate |]. cbn [bind].
  destruct (decide _); [discriminate |].
  intros H. injection H as <-. simpl. repeat split.
Qed.

(** X1. When the load returns, the replay starts in a consistent state:
    between one and [NUM_DRIVERS] records, all aligned to the timeline,
    the whole grid in view, frame 0, playing, no seek pending, ghost mode
    off. *)
Theorem load_starts_replay session g :
  load_and_synchronize_data session initial = Return g ->
  consistent g
  /\ (1 <= length (all_interpolated_data g) <= NUM_DRIVERS)%nat
  /\ current_drivers_data g = all_interpolated_data g
  /\ current_frame g = 0%Z
  /\ is_paused g = false
  /\ slider_active g = false
  /\ ghost_mode_on g = false.
Proof.
  intros Hg. destruct (load_consistent session g Hg) as (Hc & Hlen).
  destruct (load_inv session g Hg) as (_ & Hs & _ & Hcur & _).
  split; [exact Hc |]. split.
  { rewrite Hlen. split; [| apply survivors_at_most].
    destruct (survivors session); [contradiction | simpl; lia]. }
  split; [exact Hcur |].
  revert Hg. unfold load_and_synchronize_data.
  destruct (decide _); [discriminate |].
  destruct (prefetch _) as [[| m ms] raw]; [discriminate |].
  destruct (for_each _ _ _) as [e | ds]; [discriminate |]. cbn [bind].
  destruct (decide _); [discriminate |].
  intros H. injection H as <-. simpl. repeat split.
Qed.

Lemma run_consistent events : forall g,
  consistent g -> consistent (run events g) /\ same_data g (run events g).
Proof.
  unfold run. induction events as [| e events IH]; intros g Hc; simpl.
  - split; [exact Hc |]. unfold same_data. repeat split.
  - destruct (handle_keeps_consistent g e Hc) as (Hc1 & Hd1).
    destruct (IH (handle g e) Hc1) as (Hc2 & Hd2).
    split; [exact Hc2 |].
    destruct Hd1 as (? & ? & ?), Hd2 as (? & ? & ?).
    unfold same_data. repeat split; congruence.
Qed.

(** X2. After a load that returns, whatever ticks, clicks and slider moves
    follow, the state stays consistent and the timeline, the duration and
    the records are those of the load. *)
Theorem replay_stays_consistent session g events :
  load_and_synchronize_data session initial = Return g ->
  consistent (run events g) /\ same_data g (run events g).
Proof.
  intros Hg. apply run_consistent. now apply (load_consistent session).
Qed.

Lemma draw_loop_aligned N cf (datas : list Data) :
  Forall (aligned N) datas -> (cf < N)%nat ->
  forall ms dists ds,
  exists ms' cds poss,
    for_each (draw_driver cf) (ms, dists, ds) datas
    = Return (ms', dists ++ cds, ds ++ poss)
    /\ length cds = length datas
    /\ length poss = length datas
    /\ Forall is_Some poss.
Proof.
  intros Hall Hcf. induction Hall as [| A datas HA _ IH]; intros ms dists ds.
  - exists ms, [], []. rewrite !app_nil_r. repeat split. constructor.
  - destruct (draw_driver_aligned N A cf ms dists ds HA Hcf)
      as (x & y & s & a & _ & _ & _ & _ & E).
    destruct (IH (py_max ms s) (dists ++ [a]) (ds ++ [Some (x, y)]))
      as (ms' & cds & poss & E' & Lc & Lp & Hp).
    exists ms', (a :: cds), (Some (x, y) :: poss).
    cbn [for_each]. rewrite E. cbn [bind]. rewrite E'.
    rewrite <- !app_assoc. simpl. repeat split; try congruence.
    constructor; [eauto | exact Hp].
Qed.

Lemma frame_in_timeline g :
  consistent g -> times g <> [] ->
  (0 <= current_frame g < len_times g)%Z
  /\ (Z.to_nat (current_frame g) < length (times g))%nat.
Proof.
  intros (_ & _ & _ & _ & Hf & _) Hne. unfold len_times in *.
  destruct (times g); [contradiction |]. simpl length in *. lia.
Qed.

Lemma time_of_frame g :
  consistent g -> times g <> [] ->
  times g !! Z.to_nat (current_frame g) = Some (IZR (current_frame g) / FPS)%R.
Proof.
  intros Hc Hne. destruct (frame_in_timeline g Hc Hne) as (Hf & Hn).
  destruct Hc as (_ & Ht & _). rewrite Ht in Hn |- *.
  rewrite arange_lookup by exact Hn. f_equal.
  rewrite INR_IZR_INZ, Z2Nat.id by lia. unfold FPS. field.
Qed.

(** What [draw] gives in a consistent state with a non-empty timeline. *)
Lemma draw_consistent g :
  consistent g -> times g <> [] ->
  exists d,
    draw g = Return d
    /\ length (dots d) = length (current_drivers_data g)
    /\ Forall is_Some (dots d)
    /\ (is_Some (gap_text d) <-> ghost_mode_on g = true)
    /\ time_text d = (IZR (current_frame g) / FPS)%R.
Proof.
  intros Hc Hne. destruct (frame_in_timeline g Hc Hne) as (_ & Hn).
  pose proof (time_of_frame g Hc Hne) as Htime.
  destruct Hc as (Hal & _ & Hcur & Hgh & _ & _).
  assert (Hview : Forall (aligned (length (times g))) (current_drivers_data g)).
  { rewrite Hcur. destruct (ghost_mode_on g); [| exact Hal].
    now apply Forall_take. }
  destruct (draw_loop_aligned _ _ _ Hview Hn 0%R [] [])
    as (ms & cds & poss & E & Lc & Lp & Hp).
  unfold draw. rewrite E. cbn [bind app]. rewrite Htime.
  eexists. split; [reflexivity |]. cbn [dots time_text gap_text default].
  split; [exact Lp |]. split; [exact Hp |]. split; [| reflexivity].
  destruct (ghost_mode_on g) eqn:Hg.
  - specialize (Hgh eq_refl).
    assert (L2 : length (current_drivers_data g) = 2%nat)
      by (rewrite Hcur, length_take; lia).
    destruct (current_drivers_data g) as [| A [| B [| ? ?]]]; try discriminate.
    destruct cds as [| a [| b [| ? ?]]]; try discriminate.
    split; [reflexivity | eauto].
  - split; [intros [G HG]; discriminate | discriminate].
Qed.

(** X3. In a consistent state with a non-empty timeline, a call of
    [update] that is not paused does not raise: it draws one dot per
    driver in view, each with a position, shows the time of the frame,
    [frame / FPS], and computes a gap exactly in ghost mode. *)
Theorem playing_update_draws g frame :
  consistent g -> times g <> [] -> is_paused g = false ->
  exists g' d,
    update frame g = (g', Return (Some d))
    /\ length (dots d) = length (current_drivers_data g)
    /\ Forall is_Some (dots d)
    /\ (is_Some (gap_text d) <-> ghost_mode_on g = true)
    /\ time_text d = (IZR (current_frame g') / FPS)%R.
Proof.
  intros Hc Hne Hp.
  destruct (advance_returns frame g (or_intror Hne)) as (g' & Ha).
  pose proof (handle_keeps_consistent g (Tick frame) Hc) as (Hc' & Hd).
  cbn [handle] in Hc', Hd. unfold update in *. rewrite Hp, Ha in *.
  cbn [fst] in Hc', Hd.
  destruct (advance_effect frame g g' Ha) as (_ & Hcur & _ & Hgh & _).
  assert (Hne' : times g' <> []) by (destruct Hd as (-> & _); exact Hne).
  destruct (draw_consistent g' Hc' Hne') as (d & Ed & Ld & Hd' & Hg & Ht).
  exists g', d. rewrite Ed. cbn [bind].
  split; [reflexivity |]. rewrite <- Hcur, <- Hgh. auto.
Qed.

(** X4. The frame such a call shows: the counter of the animation modulo
    the length of the timeline, or, when a seek is pending, the frame of
    the seek as it is; in both cases within the timeline, with the seek
    flag cleared and the slider at the frame's percentage, between 0 and
    100, without the slider calling back. *)
Theorem playing_update_frame g frame :
  consistent g -> times g <> [] -> is_paused g = false ->
  let g' := (update frame g).1 in
  (slider_active g = false -> current_frame g' = (frame mod len_times g)%Z)
  /\ (slider_active g = true -> current_frame g' = current_frame g)
  /\ (0 <= current_frame g' < len_times g)%Z
  /\ slider_active g' = false
  /\ val (progress_slider g') = progress_percentage g'
  /\ (0 <= val (progress_slider g') <= 100)%R.
Proof.
  intros Hc Hne Hp.
  destruct (advance_returns frame g (or_intror Hne)) as (g' & Ha).
  destruct (frame_in_timeline g Hc Hne) as (Hf & _).
  unfold update. rewrite Hp, Ha. cbn [fst].
  destruct (advance_effect frame g g' Ha) as ((Et & _) & _ & _ & _ & Hs & _ & Hfr & Hv).
  assert (HN : (0 < len_times g)%Z).
  { unfold len_times. destruct (times g); [contradiction | simpl length; lia]. }
  assert (Hmod : (0 <= frame mod len_times g < len_times g)%Z)
    by (apply Z.mod_pos_bound; exact HN).
  assert (Hin : (0 <= current_frame g' < len_times g)%Z).
  { rewrite Hfr. unfold clamp. destruct (slider_active g); lia. }
  split; [intros H; rewrite Hfr, H; unfold clamp; lia |].
  split; [intros H; rewrite Hfr, H; unfold clamp; lia |].
  split; [exact Hin |]. split; [exact Hs |]. split; [exact Hv |].
  rewrite Hv. unfold progress_percentage.
  assert (El : len_times g' = len_times g) by (unfold len_times; now rewrite Et).
  rewrite El. destruct (decide (len_times g > 1)%Z) as [H1 | H1]; [| lra].
  assert (Hd : (0 < IZR (len_times g - 1))%R) by (apply IZR_lt; lia).
  assert (Hn0 : (0 <= IZR (current_frame g'))%R) by (apply IZR_le; lia).
  assert (Hn1 : (IZR (current_frame g') <= IZR (len_times g - 1))%R)
    by (apply IZR_le; lia).
  split.
  - apply Rmult_le_pos; [| lra]. apply Rmult_le_pos; [exact Hn0 |].
    apply Rlt_le, Rinv_0_lt_compat. exact Hd.
  - apply (Rmult_le_reg_r (IZR (len_times g - 1))); [exact Hd |].
    replace (IZR (current_frame g') / IZR (len_times g - 1) * 100
             * IZR (len_times g - 1))%R
      with (IZR (current_frame g') * 100)%R by (field; lra).
    lra.
Qed.

Lemma Zceil_nonpos (x : R) : (x <= 0)%R -> (Zceil x <= 0)%Z.
Proof.
  intros Hx. pose proof (Zceil_bound x) as [Hb _].
  assert (Zceil x < 1)%Z by (apply lt_IZR; lra). lia.
Qed.

Lemma draw_loop_empty cf (datas : list Data) :
  Forall (aligned 0) datas ->
  forall ms dists ds,
    for_each (draw_driver cf) (ms, dists, ds) datas
    = Return (ms, dists ++ replicate (length datas) 0%R,
              ds ++ replicate (length datas) None).
Proof.
  induction 1 as [| A datas (HX & _) _ IH]; intros ms dists ds.
  - simpl. now rewrite !app_nil_r.
  - cbn [for_each]. unfold draw_driver at 1. rewrite HX.
    destruct (decide (cf < 0)%nat); [lia |]. cbn [bind]. rewrite IH.
    simpl. now rewrite <- !app_assoc.
Qed.

(** X5. A load whose kept telemetry has no time stamp above 0 returns with
    an empty timeline and empty arrays in every record.  The first call of
    [update] then raises [ZeroDivisionError] and changes nothing; after a
    click on Reset the call does not raise, keeps frame 0 and places no
    dot. *)
Theorem empty_timeline session g frame :
  load_and_synchronize_data session initial = Return g ->
  (forall item s, item ∈ survivors session -> s ∈ item.2 -> (Time s <= 0)%Z) ->
  times g = []
  /\ Forall (aligned 0) (all_interpolated_data g)
  /\ update frame g = (g, Raise ZeroDivisionError)
  /\ exists g' d,
       update frame (reset_callback g) = (g', Return (Some d))
       /\ current_frame g' = 0%Z
       /\ dots d = replicate (length (all_interpolated_data g)) None
       /\ gap_text d = None.
Proof.
  intros Hg Hall.
  destruct (load_consistent session g Hg) as (Hc & _).
  destruct (load_inv session g Hg) as (_ & Hs & _ & Hcur & HT & Ht).
  destruct (max_duration_is_max session Hs) as ((item & s & Hi & Hin & Hmax) & _).
  assert (Hle : (total_seconds g <= 0)%R).
  { rewrite HT, <- Hmax. specialize (Hall item s Hi Hin).
    assert (Hdiv : (Time s / 1000 <= 0)%Z)
      by (apply Z.div_le_upper_bound; lia).
    apply IZR_le in Hdiv. unfold Timedelta.scalar_total_seconds. lra. }
  assert (Hempty : times g = []).
  { apply nil_length_inv. rewrite Ht, arange_length.
    assert (Zceil ((total_seconds g - 0) / (1 / FPS)) <= 0)%Z; [| lia].
    apply Zceil_nonpos. unfold FPS. lra. }
  assert (Hal : Forall (aligned 0) (all_interpolated_data g)).
  { destruct Hc as (Hal & _). now rewrite Hempty in Hal. }
  destruct (load_starts_flags session g Hg) as (Hf & Hp & Hsl & Hgh & He).
  split; [exact Hempty |]. split; [exact Hal |]. split.
  { unfold update, advance. rewrite Hp, Hsl. cbn [negb].
    destruct (decide (len_times g = 0%Z)) as [_ | H0]; [reflexivity |].
    unfold len_times in H0. rewrite Hempty in H0. contradiction. }
  destruct (reset_callback_effect g He) as (Rf & Rs & Rp).
  unfold update. rewrite Rp, Hp.
  destruct (advance_returns frame (reset_callback g) (or_introl Rs)) as (g' & Ha).
  rewrite Ha.
  destruct (advance_effect frame (reset_callback g) g' Ha)
    as ((Et & _ & Ed) & Hc' & _ & Hg' & _ & _ & Hfr & _).
  assert (Rd : times (reset_callback g) = times g
               /\ current_drivers_data (reset_callback g) = current_drivers_data g
               /\ ghost_mode_on (reset_callback g) = ghost_mode_on g).
  { unfold reset_callback, set_val. simpl. rewrite He. repeat split. }
  destruct Rd as (Rt & Rc & Rg).
  assert (Hf' : current_frame g' = 0%Z).
  { rewrite Hfr, Rs, Rf. unfold clamp. lia. }
  exists g'. unfold draw. rewrite Hf', Hc', Rc, Hcur, Hg', Rg, Hgh.
  rewrite (draw_loop_empty _ _ Hal). cbn [bind app].
  eexists. split; [reflexivity |]. repeat split.
Qed.

(** One unpaused call with no seek pending. *)
Lemma playback_tick_frame g frame :
  consistent g -> times g <> [] ->
  is_paused g = false -> slider_active g = false ->
  current_frame (update frame g).1 = (frame mod len_times g)%Z.
Proof.
  intros Hc Hne Hp Hs.
  destruct (advance_returns frame g (or_intror Hne)) as (g' & Ha).
  unfold update. rewrite Hp, Ha. cbn [fst].
  destruct (advance_effect _ _ _ Ha) as (_ & _ & _ & _ & _ & _ & Hf & _).
  rewrite Hf, Hs.
  assert (HN : (0 < len_times g)%Z).
  { unfold len_times. destruct (times g); [contradiction | simpl length; lia]. }
  pose proof (Z.mod_pos_bound frame (len_times g) HN). unfold clamp. lia.
Qed.

Lemma ticks_snoc (frames : list Z) frame g :
  ticks (frames ++ [frame]) g = (update frame (ticks frames g)).1.
Proof. unfold ticks. now rewrite foldl_app. Qed.

Lemma ticks_playing (frames : list Z) : forall g,
  consistent g -> is_paused g = false ->
  consistent (ticks frames g)
  /\ times (ticks frames g) = times g
  /\ is_paused (ticks frames g) = false
  /\ (slider_active g = false -> slider_active (ticks frames g) = false).
Proof.
  induction frames as [| f frames IH] using rev_ind; intros g Hc Hp.
  - change (ticks [] g) with g. tauto.
  - rewrite ticks_snoc.
    destruct (IH g Hc Hp) as (Hc1 & Ht1 & Hp1 & Hs1).
    pose proof (handle_keeps_consistent _ (Tick f) Hc1) as (Hc2 & (Ht2 & _)).
    cbn [handle] in Hc2, Ht2.
    destruct (update_effect f (ticks frames g)) as (_ & _ & Hp2 & _).
    split; [exact Hc2 |]. split; [congruence |]. split; [congruence |].
    intros Hs. specialize (Hs1 Hs). unfold update. rewrite Hp1.
    destruct (advance f (ticks frames g)) as [e | g'] eqn:Ha; [exact Hs1 |].
    now destruct (advance_effect _ _ _ Ha) as (_ & _ & _ & _ & Hs' & _).
Qed.

(** X6. While the replay plays with no seek pending, the frame follows the
    counter of the animation modulo the length of the timeline: after any
    run of calls of [update] it is the last counter modulo that length. *)
Theorem playback_follows_counter (frames : list Z) frame g :
  consistent g -> times g <> [] ->
  is_paused g = false -> slider_active g = false ->
  current_frame (ticks (frames ++ [frame]) g) = (frame mod len_times g)%Z.
Proof.
  intros Hc Hne Hp Hs.
  destruct (ticks_playing frames g Hc Hp) as (Hc1 & Ht1 & Hp1 & Hs1).
  rewrite ticks_snoc.
  assert (Hne1 : times (ticks frames g) <> []) by now rewrite Ht1.
  destruct (advance_returns frame (ticks frames g) (or_intror Hne1)) as (g' & Ha).
  unfold update. rewrite Hp1, Ha. cbn [fst].
  destruct (advance_effect _ _ _ Ha) as (_ & _ & _ & _ & _ & _ & Hf & _).
  rewrite Hf, (Hs1 Hs).
  replace (len_times (ticks frames g)) with (len_times g)
    by (unfold len_times; now rewrite Ht1).
  assert (HN : (0 < len_times g)%Z).
  { unfold len_times. destruct (times g); [contradiction | simpl length; lia]. }
  pose proof (Z.mod_pos_bound frame (len_times g) HN). unfold clamp. lia.
Qed.

(** X7. Pausing, letting any number of animation steps pass and resuming
    gives back the globals exactly as they were. *)
Theorem pause_resume_round_trip (frames : list Z) g :
  is_paused g = false ->
  pause_callback (ticks frames (pause_callback g)) = g.
Proof.
  intros Hp. rewrite ticks_paused.
  - unfold pause_callback. destruct g; simpl in *. now subst.
  - unfold pause_callback. simpl. now rewrite Hp.
Qed.

(** X8. After a click on Reset while playing, the next call of [update]
    shows frame 0 whatever the counter, and the call after it follows the
    counter again. *)
Theorem reset_holds_one_step g frame1 frame2 :
  consistent g -> times g <> [] -> is_paused g = false ->
  let g1 := (update frame1 (reset_callback g)).1 in
  let g2 := (update frame2 g1).1 in
  current_frame g1 = 0%Z
  /\ slider_active g1 = false
  /\ current_frame g2 = (frame2 mod len_times g)%Z.
Proof.
  intros Hc Hne Hp g1 g2.
  pose proof Hc as (_ & _ & _ & _ & _ & He).
  destruct (reset_callback_effect g He) as (Rf & Rs & Rp).
  pose proof (handle_keeps_consistent g ResetClick Hc) as (Hc0 & (Ht0 & _)).
  cbn [handle] in Hc0, Ht0.
  assert (Hne0 : times (reset_callback g) <> []) by now rewrite Ht0.
  destruct (advance_returns frame1 (reset_callback g) (or_introl Rs)) as (g' & Ha).
  assert (E1 : g1 = g').
  { unfold g1, update. now rewrite Rp, Hp, Ha. }
  destruct (advance_effect _ _ _ Ha) as ((Et & _) & _ & Hp' & _ & Hs' & _ & Hf & _).
  assert (H10 : current_frame g1 = 0%Z).
  { rewrite E1, Hf, Rs, Rf. unfold clamp. lia. }
  split; [exact H10 |]. split; [now rewrite E1 |].
  pose proof (handle_keeps_consistent _ (Tick frame1) Hc0) as (Hc1 & _).
  cbn [handle] in Hc1. fold g1 in Hc1.
  assert (Ht1 : times g1 = times g) by (rewrite E1; congruence).
  pose proof (playback_tick_frame g1 frame2 Hc1) as Hstep.
  rewrite Ht1 in Hstep. specialize (Hstep Hne).
  rewrite E1, Hp', Rp, Hs' in Hstep. specialize (Hstep Hp eq_refl).
  rewrite <- E1 in Hstep. fold g2 in Hstep. rewrite Hstep.
  unfold len_times. now rewrite Ht1.
Qed.

Lemma int_le (x y : R) : (x <= y)%R -> (int x <= int y)%Z.
Proof.
  intros Hxy. unfold int.
  destruct (decide (0 <= x)%R) as [Hx | Hx], (decide (0 <= y)%R) as [Hy | Hy];
    try lra.
  - now apply Zfloor_le.
  - assert (Zceil x <= 0)%Z by (apply Zceil_nonpos; lra).
    assert (0 <= Zfloor y)%Z by (apply Zfloor_lub; exact Hy). lia.
  - now apply Zceil_le.
Qed.

Lemma clamp_le n v w : (v <= w)%Z -> (clamp n v <= clamp n w)%Z.
Proof. unfold clamp. lia. Qed.


(** X10. Dragging the slider further never moves the frame back: the frame
    set by [slider_update] does not decrease when the value grows. *)
Theorem seek_is_monotone v w g :
  (v <= w)%R ->
  (current_frame (slider_update v g) <= current_frame (slider_update w g))%Z.
Proof.
  intros Hvw. rewrite !slider_update_frame.
  destruct (decide (0 <= len_times g - 1)%Z) as [Hn | Hn].
  - apply clamp_le, int_le. apply IZR_le in Hn. nra.
  - unfold clamp. lia.
Qed.

(** X11. A click on the ghost button in a consistent state: with at least
    two records it flips the mode, shows the first two records in ghost
    mode and all of them otherwise, and restarts at frame 0; with fewer
    than two records it changes nothing, the frame included.  It never
    touches the pause or a pending seek, and two clicks give back the
    view and the mode. *)
Theorem ghost_button_switches_view g :
  consistent g ->
  let g' := ghost_mode_callback g in
  ((2 <= length (all_interpolated_data g))%nat ->
     ghost_mode_on g' = negb (ghost_mode_on g)
     /\ current_frame g' = 0%Z
     /\ current_drivers_data g'
        = (if ghost_mode_on g' then take 2 (all_interpolated_data g)
           else all_interpolated_data g)
     /\ length (current_drivers_data g')
        = (if ghost_mode_on g' then 2%nat else length (all_interpolated_data g)))
  /\ ((length (all_interpolated_data g) < 2)%nat -> g' = g)
  /\ is_paused g' = is_paused g
  /\ slider_active g' = slider_active g
  /\ ghost_mode_on (ghost_mode_callback g') = ghost_mode_on g
  /\ current_drivers_data (ghost_mode_callback g') = current_drivers_data g.
Proof.
  intros Hc g'. pose proof Hc as (_ & _ & Hcur & Hgh & _ & _).
  destruct (ghost_mode_callback_effect g) as ((_ & _ & Ed) & Hp & Hs & _ & Hon & Hoff).
  fold g' in Ed, Hp, Hs, Hon, Hoff.
  assert (Hsmall : (length (all_interpolated_data g) < 2)%nat -> g' = g).
  { intros H. apply Hoff; [exact H |].
    destruct (ghost_mode_on g); [specialize (Hgh eq_refl); lia | reflexivity]. }
  split.
  { intros H2. destruct (Hon (or_introl H2)) as (Eg & Ef & Ec).
    repeat split; try assumption. rewrite Ec.
    destruct (ghost_mode_on g'); [rewrite length_take; lia | reflexivity]. }
  split; [exact Hsmall |]. split; [exact Hp |]. split; [exact Hs |].
  destruct (decide (2 <= length (all_interpolated_data g))%nat) as [H2 | H2].
  - destruct (Hon (or_introl H2)) as (Eg & _ & _).
    destruct (ghost_mode_callback_effect g') as (_ & _ & _ & _ & Hon' & _).
    rewrite Ed in Hon'.
    destruct (Hon' (or_introl H2)) as (Eg' & _ & Ec').
    rewrite Eg', Eg, negb_involutive. split; [reflexivity |].
    rewrite Ec', Eg', Eg, negb_involutive. now rewrite Hcur.
  - assert (E : g' = g) by (apply Hsmall; lia).
    rewrite E. unfold g' in E. rewrite E. split; reflexivity.
Qed.

Lemma py_max_spec (a b : R) :
  (a <= py_max a b)%R /\ (b <= py_max a b)%R
  /\ (py_max a b = a \/ py_max a b = b).
Proof. unfold py_max. destruct (decide (b > a)%R); repeat split; auto; lra. Qed.

Lemma draw_loop_speed cf (datas : list Data) : forall ms dists ds ms' dists' ds',
  for_each (draw_driver cf) (ms, dists, ds) datas = Return (ms', dists', ds') ->
  (ms <= ms')%R
  /\ (forall data s, data ∈ datas -> (cf < length (X_interp data))%nat ->
       Speed_interp data !! cf = Some s -> (s <= ms')%R)
  /\ (ms' = ms
      \/ exists data, data ∈ datas /\ (cf < length (X_interp data))%nat
                      /\ Speed_interp data !! cf = Some ms').
Proof.
  induction datas as [| A datas IH]; intros ms dists ds ms' dists' ds' H.
  - simpl in H. injection H as <- _ _. split; [lra |]. split; [| now left].
    intros data s Hin. inversion Hin.
  - cbn [for_each] in H. unfold draw_driver at 1 in H.
    destruct (decide (cf < length (X_interp A))%nat) as [Hlt | Hge].
    + destruct (getitem (X_interp A) cf) as [e | x]; [discriminate |].
      destruct (getitem (Y_interp A) cf) as [e | y]; [discriminate |].
      unfold getitem at 1 in H.
      destruct (Speed_interp A !! cf) as [s0 |] eqn:Hs0; [| discriminate].
      cbn [bind] in H.
      destruct (getitem (CumulativeDistance A) cf) as [e | c]; [discriminate |].
      cbn [bind] in H. apply IH in H. destruct H as (Hle & Hall & Hex).
      destruct (py_max_spec ms s0) as (Ha & Hb & Hc).
      split; [lra |]. split.
      * intros data s Hin Hl Hs. apply elem_of_cons in Hin.
        destruct Hin as [-> | Hin]; [| now apply (Hall data)].
        assert (s = s0) by congruence. subst. lra.
      * destruct Hex as [-> | (data & Hin & Hl & Hs)].
        -- destruct Hc as [-> | ->]; [now left |].
           right. exists A. repeat split; [left | exact Hlt | exact Hs0].
        -- right. exists data. repeat split; [now right | exact Hl | exact Hs].
    + cbn [bind] in H. apply IH in H. destruct H as (Hle & Hall & Hex).
      split; [exact Hle |]. split.
      * intros data s Hin Hl Hs. apply elem_of_cons in Hin.
        destruct Hin as [-> | Hin]; [contradiction | now apply (Hall data)].
      * destruct Hex as [-> | (data & Hin & Hl & Hs)]; [now left |].
        right. exists data. repeat split; [now right | exact Hl | exact Hs].
Qed.

(** X12. The speed that [update] shows is the largest speed, at the frame,
    of the drivers in view that have the frame, and 0 when none of them
    is above 0. *)
Theorem max_speed_shown g d :
  draw g = Return d ->
  let cf := Z.to_nat (current_frame g) in
  (0 <= speed_text d)%R
  /\ (forall data s, data ∈ current_drivers_data g ->
       (cf < length (X_interp data))%nat ->
       Speed_interp data !! cf = Some s -> (s <= speed_text d)%R)
  /\ (speed_text d = 0%R
      \/ exists data, data ∈ current_drivers_data g
                      /\ Speed_interp data !! cf = Some (speed_text d)).
Proof.
  intros H cf. unfold draw in H. fold cf in H.
  destruct (for_each _ _ _) as [e | [[ms dists] ds]] eqn:E; [discriminate |].
  cbn [bind] in H. injection H as <-. cbn [speed_text].
  apply draw_loop_speed in E. destruct E as (Hle & Hall & Hex).
  split; [exact Hle |]. split; [exact Hall |].
  destruct Hex as [-> | (data & Hin & _ & Hs)]; [now left | right; eauto].
Qed.

End replay.

(** ** The roster: who is kept, and in which order *)

Section roster.

Implicit Types (session : Session) (ls : list lap.t) (g : Globals).

#[local] Instance lap_time_le_trans : Transitive lap_time_le.
Proof. intros a b c. unfold lap_time_le. lia. Qed.

#[local] Instance lap_time_le_total : Total lap_time_le.
Proof. intros a b. unfold lap_time_le. lia. Qed.

Lemma insert_by_lap_time_Permutation (l : lap.t) ls :
  insert_by_lap_time l ls ≡ₚ l :: ls.
Proof.
  induction ls as [| l' ls IH]; simpl; [reflexivity |].
  destruct (decide (lap_time_le l l')); [reflexivity |].
  rewrite IH. apply Permutation_swap.
Qed.

Lemma sort_values_Permutation ls : sort_values ls ≡ₚ ls.
Proof.
  unfold sort_values. induction ls as [| l ls IH]; simpl; [reflexivity |].
  now rewrite insert_by_lap_time_Permutation, IH.
Qed.

Lemma insert_by_lap_time_sorted (l : lap.t) ls :
  StronglySorted lap_time_le ls ->
  StronglySorted lap_time_le (insert_by_lap_time l ls).
Proof.
  induction 1 as [| l' ls Hs IH Hall]; simpl; [repeat constructor |].
  destruct (decide (lap_time_le l l')) as [Hle | Hgt].
  - constructor; [now constructor |].
    constructor; [exact Hle |].
    eapply Forall_impl; [exact Hall |]. intros x Hx. now transitivity l'.
  - constructor; [exact IH |].
    rewrite insert_by_lap_time_Permutation. constructor; [| exact Hall].
    destruct (total lap_time_le l l'); [contradiction | assumption].
Qed.

Lemma sort_values_sorted ls : StronglySorted lap_time_le (sort_values ls).
Proof.
  unfold sort_values. induction ls as [| l ls IH]; simpl; [constructor |].
  now apply insert_by_lap_time_sorted.
Qed.

Lemma idxmin_spec ls m :
  idxmin ls = Some m ->
  m ∈ ls /\ forall l, l ∈ ls -> (lap_time m <= lap_time l)%Z.
Proof.
  destruct ls as [| l0 ls]; [discriminate |]. simpl. intros H. injection H as <-.
  revert l0. induction ls as [| l1 ls IH]; intros l0; simpl.
  - split; [left |]. intros l Hl. apply list_elem_of_singleton in Hl. subst. lia.
  - destruct (decide (lap_time l1 < lap_time l0)%Z) as [Hlt | Hge].
    + destruct (IH l1) as (Hin & Hmin). split.
      * apply elem_of_cons in Hin. destruct Hin as [-> | Hin];
          [right; left | right; now right].
      * intros l Hl. apply elem_of_cons in Hl. destruct Hl as [-> | Hl].
        -- specialize (Hmin l1 ltac:(left)). lia.
        -- now apply Hmin.
    + destruct (IH l0) as (Hin & Hmin). split.
      * apply elem_of_cons in Hin. destruct Hin as [-> | Hin];
          [left | right; now right].
      * intros l Hl. apply elem_of_cons in Hl. destruct Hl as [-> | Hl].
        -- now apply Hmin; left.
        -- apply elem_of_cons in Hl. destruct Hl as [-> | Hl].
           ++ specialize (Hmin l0 ltac:(left)). lia.
           ++ apply Hmin. now right.
Qed.

(** The lap kept for a driver key is a lap of that driver, the fastest. *)
Lemma fastest_of_key ls d m :
  idxmin (filter (fun l => lap.Driver l = d) ls) = Some m ->
  lap.Driver m = d /\ m ∈ ls
  /\ forall l, l ∈ ls -> lap.Driver l = d -> (lap_time m <= lap_time l)%Z.
Proof.
  intros H. apply idxmin_spec in H. destruct H as (Hin & Hmin).
  apply list_elem_of_filter in Hin. destruct Hin as (Hd & Hin).
  repeat split; try assumption.
  intros l Hl Hld. apply Hmin. apply list_elem_of_filter. now split.
Qed.

Lemma fastest_per_driver_spec ls m :
  m ∈ fastest_per_driver ls ->
  m ∈ ls
  /\ forall l, l ∈ ls -> lap.Driver l = lap.Driver m ->
       (lap_time m <= lap_time l)%Z.
Proof.
  unfold fastest_per_driver. intros H. apply list_elem_of_omap in H.
  destruct H as (d & _ & Hd). apply fastest_of_key in Hd.
  destruct Hd as (<- & Hin & Hmin). split; [exact Hin | exact Hmin].
Qed.



Lemma drivers_to_track_sublist session :
  drivers_to_track session `sublist_of` fastest_laps (notna (laps session)).
Proof. apply sublist_take. Qed.

Lemma kept_rows_sublist session :
  (survivors session).*1 `sublist_of` fastest_laps (notna (laps session)).
Proof.
  unfold survivors. rewrite survivors_filter.
  etransitivity; [apply sublist_filter | apply drivers_to_track_sublist].
Qed.

Lemma StronglySorted_sublist {T : Type} (R : relation T) (l k : list T) :
  l `sublist_of` k -> StronglySorted R k -> StronglySorted R l.
Proof.
  induction 1 as [| x l k Hs IH | x l k Hs IH]; intros Hk.
  - constructor.
  - apply StronglySorted_inv in Hk. destruct Hk as (Hk & Hall).
    constructor; [now apply IH |].
    rewrite Forall_forall in Hall |- *. intros y Hy. apply Hall.
    now apply (elem_of_sublist l k).
  - apply StronglySorted_inv in Hk. destruct Hk as (Hk & _). now apply IH.
Qed.

Lemma StronglySorted_lookup {T : Type} (R : relation T) (l : list T) :
  StronglySorted R l ->
  forall i j a b, (i < j)%nat -> l !! i = Some a -> l !! j = Some b -> R a b.
Proof.
  induction 1 as [| x l _ IH Hall]; intros i j a b Hij Hi Hj; [discriminate |].
  destruct j as [| j]; [lia |]. simpl in Hj.
  destruct i as [| i]; simpl in Hi.
  - injection Hi as <-. rewrite Forall_forall in Hall. apply Hall.
    apply list_elem_of_lookup. eauto.
  - apply (IH i j); [lia | assumption | assumption].
Qed.

Lemma kept_rows_sorted session :
  StronglySorted lap_time_le (survivors session).*1.
Proof.
  apply (StronglySorted_sublist _ _ _ (kept_rows_sublist session)).
  unfold fastest_laps. apply sort_values_sorted.
Qed.

Lemma kept_row_spec session row :
  row ∈ (survivors session).*1 ->
  is_Some (lap.LapTime row)
  /\ row ∈ laps session
  /\ usable row = true
  /\ forall l, l ∈ laps session -> is_Some (lap.LapTime l) ->
       lap.Driver l = lap.Driver row -> (lap_time row <= lap_time l)%Z.
Proof.
  intros Hin.
  assert (Hu : usable row = true).
  { unfold survivors in Hin. rewrite survivors_filter in Hin.
    apply list_elem_of_filter in Hin. tauto. }
  pose proof (elem_of_sublist _ _ _ Hin (kept_rows_sublist session)) as Hrow.
  unfold fastest_laps in Hrow.
  rewrite sort_values_Permutation in Hrow.
  apply fastest_per_driver_spec in Hrow.
  destruct Hrow as (Hn & Hmin).
  unfold notna in Hn. apply list_elem_of_filter in Hn. destruct Hn as (Ht & Hl).
  repeat split; try assumption.
  intros l Hl' Ht' Hd. apply Hmin; [| exact Hd].
  unfold notna. apply list_elem_of_filter. now split.
Qed.


Lemma produced_rows session g :
  load_and_synchronize_data session initial = Return g ->
  Forall2 (fun row data => Driver data = lap.Driver row
                           /\ LapTime data = lap.LapTime row)
    (survivors session).*1 (all_interpolated_data g).
Proof.
  intros Hg. destruct (load_inv session g Hg) as (_ & _ & HF & _).
  induction HF as [| item data items ds (Hd & Ht & _) _ IH]; [constructor |].
  rewrite fmap_cons. constructor; [split; assumption | exact IH].
Qed.

(** X13. The records of the load are in the order of their lap times,
    fastest first, and every record has a lap time. *)
Theorem roster_sorted_by_lap_time session g i j a b :
  load_and_synchronize_data session initial = Return g ->
  (i < j)%nat ->
  all_interpolated_data g !! i = Some a ->
  all_interpolated_data g !! j = Some b ->
  exists ta tb, LapTime a = Some ta /\ LapTime b = Some tb /\ (ta <= tb)%Z.
Proof.
  intros Hg Hij Ha Hb. pose proof (produced_rows session g Hg) as HF.
  destruct (Forall2_lookup_r _ _ _ _ _ HF Ha) as (ra & Hra & _ & Eta).
  destruct (Forall2_lookup_r _ _ _ _ _ HF Hb) as (rb & Hrb & _ & Etb).
  pose proof (StronglySorted_lookup _ _ (kept_rows_sorted session)
                i j ra rb Hij Hra Hrb) as Hle.
  assert (Ia : ra ∈ (survivors session).*1) by (apply list_elem_of_lookup; eauto).
  assert (Ib : rb ∈ (survivors session).*1) by (apply list_elem_of_lookup; eauto).
  destruct (kept_row_spec session ra Ia) as ([ta Hta] & _).
  destruct (kept_row_spec session rb Ib) as ([tb Htb] & _).
  exists ta, tb. rewrite Eta, Etb. repeat split; try assumption.
  unfold lap_time_le, lap_time in Hle. now rewrite Hta, Htb in Hle.
Qed.


(** X15. The load raises nothing but its first two errors: with a record
    list that starts empty, "No driver data was successfully loaded." is
    never raised, nor any error of the resampling. *)
Theorem load_raises_only_two session e :
  load_and_synchronize_data session initial = Raise e ->
  e = ValueError "No valid laps found in session data."
  \/ e = ValueError "No valid telemetry data found for the top drivers.".
Proof.
  intros He.
  destruct (notna (laps session)) as [| l ls] eqn:Hl.
  - left. revert He. unfold load_and_synchronize_data. rewrite Hl. simpl.
    congruence.
  - destruct (survivors session) as [| it its] eqn:Hs.
    + right. revert He. unfold load_and_synchronize_data. rewrite Hl.
      destruct (decide _) as [H0 | _]; [discriminate H0 |].
      rewrite prefetch_spec. fold (survivors session). rewrite Hs. simpl.
      congruence.
    + destruct (load_returns session) as (g & Hg & _); congruence.
Qed.

End roster.

(** ** The resampler at and beyond the raw samples *)

Section resampler_more.

Implicit Types (tel : list Sample) (times xp fp : list R) (session : Session).

Lemma interpolate_telemetry_at tel times :
  tel <> [] ->
  exists x_interp y_interp speed_interp,
    interpolate_telemetry tel times = Return (x_interp, y_interp, speed_interp)
    /\ forall i t, times !! i = Some t ->
         x_interp !! i = np.interp_at (tel_seconds tel) (X <$> tel) t
         /\ y_interp !! i = np.interp_at (tel_seconds tel) (Y <$> tel) t
         /\ speed_interp !! i = np.interp_at (tel_seconds tel) (Speed <$> tel) t.
Proof.
  intros Hne.
  assert (Hxp : tel_seconds tel <> []) by (destruct tel; [contradiction | discriminate]).
  assert (Hlen : forall f : Sample -> R, length (f <$> tel) = length (tel_seconds tel))
    by (intros f; unfold tel_seconds; now rewrite !length_fmap).
  destruct (interp_returns times _ _ Hxp (Hlen X)) as (xs & Ex & _ & Hx).
  destruct (interp_returns times _ _ Hxp (Hlen Y)) as (ys & Ey & _ & Hy).
  destruct (interp_returns times _ _ Hxp (Hlen Speed)) as (ss & Es & _ & Hs).
  exists xs, ys, ss. unfold interpolate_telemetry. fold (tel_seconds tel).
  rewrite Ex, Ey, Es. split; [reflexivity |]. intros i t Ht. auto.
Qed.

Lemma scan_strict xp : forall k xk,
  StronglySorted Rlt xp -> xp !! k = Some xk -> np.scan xk xp = S k.
Proof.
  induction xp as [| a xp IH]; intros k xk Hs Hk; [discriminate |].
  apply StronglySorted_inv in Hs. destruct Hs as (Hs & Hall).
  rewrite Forall_forall in Hall. simpl.
  destruct k as [| k]; simpl in Hk.
  - injection Hk as ->. destruct (decide (xk >= xk)%R); [| lra]. f_equal.
    destruct xp as [| b xp]; [reflexivity |]. simpl.
    specialize (Hall b ltac:(left)).
    destruct (decide (xk >= b)%R); [lra | reflexivity].
  - assert (a < xk)%R by (apply Hall, list_elem_of_lookup; eauto).
    destruct (decide (xk >= a)%R); [| lra]. f_equal. now apply IH.
Qed.

(** On strictly increasing sample points, the value at a sample point is
    the sample. *)
Lemma interp_at_sample xp fp k xk :
  StronglySorted Rlt xp -> length fp = length xp ->
  xp !! k = Some xk -> np.interp_at xp fp xk = fp !! k.
Proof.
  intros Hs Hlen Hk. pose proof (lookup_lt_Some _ _ _ Hk) as Hlt.
  pose proof (scan_strict xp k xk Hs Hk) as Hscan.
  unfold np.interp_at, np.binary_search.
  destruct xp as [| a0 xp']; [discriminate |].
  destruct (last (a0 :: xp')) as [an |] eqn:Hlast;
    [| apply last_None in Hlast; discriminate].
  assert (Ha0 : (a0 <= xk)%R).
  { destruct k; simpl in Hk; [injection Hk as ->; lra |].
    apply StronglySorted_inv in Hs. destruct Hs as (_ & Hall).
    rewrite Forall_forall in Hall.
    apply Rlt_le, Hall, list_elem_of_lookup. eauto. }
  assert (Han : (xk <= an)%R).
  { rewrite last_lookup in Hlast.
    destruct (decide (k = pred (length (a0 :: xp')))) as [-> | Hne].
    - assert (xk = an) by congruence. lra.
    - apply Rlt_le.
      apply (StronglySorted_lookup Rlt (a0 :: xp') Hs k (pred (length (a0 :: xp'))));
        [simpl in *; lia | exact Hk | exact Hlast]. }
  remember (a0 :: xp') as xp eqn:Exp. clear Exp Hlast.
  destruct (decide (xk > an)%R); [lra |].
  destruct (decide (xk < a0)%R); [lra |].
  rewrite Hscan.
  destruct (decide ((Z.of_nat (S k) - 1)%Z = (-1)%Z)); [lia |].
  destruct (decide ((Z.of_nat (S k) - 1)%Z = Z.of_nat (length xp))); [lia |].
  replace (Z.to_nat (Z.of_nat (S k) - 1)) with k by lia.
  destruct (decide (k = (length xp - 1)%nat)); [reflexivity |].
  rewrite Hk. cbn [mbind option_bind].
  destruct (decide (xk = xk)); [reflexivity | contradiction].
Qed.

Lemma tel_seconds_strict tel :
  Sorted Z.lt (Time <$> tel) -> StronglySorted Rlt (tel_seconds tel).
Proof.
  intros Hs. apply Sorted_StronglySorted in Hs; [| intros ? ? ?; lia].
  unfold tel_seconds.
  apply (StronglySorted_fmap (fun s => Timedelta.total_seconds (Time s))
           (fun a b => (Time a < Time b)%Z) Rlt).
  - intros a b Hab. apply IZR_lt in Hab. unfold Timedelta.total_seconds. lra.
  - clear -Hs. induction tel as [| s tel IH]; [constructor |].
    rewrite fmap_cons in Hs. apply StronglySorted_inv in Hs.
    destruct Hs as (Hs & Hall). constructor; [now apply IH |].
    now rewrite Forall_fmap in Hall.
Qed.

(** X16. On raw samples with strictly increasing times, a query exactly at
    the time of a raw sample gives that sample's X, Y and speed: the
    resampling passes through the raw points. *)
Theorem resampling_exact_at_samples tel times i k s :
  Sorted Z.lt (Time <$> tel) ->
  tel !! k = Some s ->
  times !! i = Some (Timedelta.total_seconds (Time s)) ->
  exists x_interp y_interp speed_interp,
    interpolate_telemetry tel times = Return (x_interp, y_interp, speed_interp)
    /\ x_interp !! i = Some (X s)
    /\ y_interp !! i = Some (Y s)
    /\ speed_interp !! i = Some (Speed s).
Proof.
  intros Hs Hk Hi.
  assert (Hne : tel <> []) by (intros ->; discriminate).
  destruct (interpolate_telemetry_at tel times Hne) as (xs & ys & ss & E & Hat).
  destruct (Hat i _ Hi) as (Hx & Hy & Hsp).
  pose proof (tel_seconds_strict tel Hs) as Hstrict.
  assert (Hsec : tel_seconds tel !! k = Some (Timedelta.total_seconds (Time s)))
    by (unfold tel_seconds; now rewrite list_lookup_fmap, Hk).
  assert (Hlen : forall f : Sample -> R, length (f <$> tel) = length (tel_seconds tel))
    by (intros f; unfold tel_seconds; now rewrite !length_fmap).
  exists xs, ys, ss. split; [exact E |].
  rewrite Hx, Hy, Hsp.
  rewrite !(interp_at_sample _ _ k _ Hstrict (Hlen _) Hsec).
  rewrite !list_lookup_fmap, Hk. repeat split.
Qed.

(** X17. In a record of the load, once the timeline has passed the last
    raw sample of the driver, the position and the speed stay those of
    that sample, and from one such frame to the next the cumulative
    distance no longer grows. *)
Theorem frozen_after_last_sample session g k item data sn i t :
  load_and_synchronize_data session initial = Return g ->
  survivors session !! k = Some item ->
  all_interpolated_data g !! k = Some data ->
  last item.2 = Some sn ->
  times g !! i = Some t ->
  (t > Timedelta.total_seconds (Time sn))%R ->
  X_interp data !! i = Some (X sn)
  /\ Y_interp data !! i = Some (Y sn)
  /\ Speed_interp data !! i = Some (Speed sn)
  /\ forall t', times g !! (i - 1)%nat = Some t' ->
       (t' > Timedelta.total_seconds (Time sn))%R ->
       CumulativeDistance data !! i = CumulativeDistance data !! (i - 1)%nat.
Proof.
  intros Hg Hitem Hdata Hlast Hi Ht.
  destruct (load_inv session g Hg) as (_ & _ & HF & _).
  destruct (Forall2_lookup_l _ _ _ _ _ HF Hitem) as (data' & Hd' & Hp).
  assert (data' = data) as -> by congruence.
  assert (Hin : item ∈ survivors session) by (apply list_elem_of_lookup; eauto).
  pose proof (survivors_nonempty session item Hin) as Hne.
  destruct (produced_aligned session (times g) item data Hne Hp)
    as (_ & _ & _ & Ld & _ & Hlaw).
  destruct Hp as (_ & _ & _ & Hint & _).
  destruct (interpolate_telemetry_at item.2 (times g) Hne) as (xs & ys & ss & E & Hat).
  rewrite E in Hint. injection Hint as -> -> ->.
  assert (Hsec : last (tel_seconds item.2) = Some (Timedelta.total_seconds (Time sn)))
    by (unfold tel_seconds; now rewrite fmap_last, Hlast).
  assert (Hfrozen : forall j u, times g !! j = Some u ->
            (u > Timedelta.total_seconds (Time sn))%R ->
            X_interp data !! j = Some (X sn) /\ Y_interp data !! j = Some (Y sn)
            /\ Speed_interp data !! j = Some (Speed sn)).
  { intros j u Hj Hu. destruct (Hat j u Hj) as (Hx & Hy & Hs).
    rewrite Hx, Hy, Hs.
    rewrite !(interp_at_right _ _ u _ Hsec Hu), !fmap_last, Hlast.
    repeat split. }
  destruct (Hfrozen i t Hi Ht) as (Hx & Hy & Hs).
  repeat (split; [assumption |]).
  intros t' Hi' Ht'.
  destruct (decide (i = 0%nat)) as [-> | Hi0]; [reflexivity |].
  destruct (Hfrozen (i - 1)%nat t' Hi' Ht') as (Hx' & Hy' & _).
  pose proof (lookup_lt_Some _ _ _ Hi) as Hlt.
  destruct (Hlaw i ltac:(lia)) as (p & a & b & c & e & Hp & Ha & Hb & Hc & He & Hd).
  rewrite Hd, Hp. f_equal.
  assert (a = X sn) by congruence. assert (b = X sn) by congruence.
  assert (c = Y sn) by congruence. assert (e = Y sn) by congruence. subst.
  replace ((X sn - X sn) ^ 2 + (Y sn - Y sn) ^ 2)%R with 0%R by ring.
  rewrite sqrt_0. lra.
Qed.

End resampler_more.

(** ** The cumulative distance as a path length *)

Section path.

Implicit Types (session : Session) (g : Globals) (data : Data).

Lemma sqrt_sum_squares_0 (a b : R) :
  sqrt (a ^ 2 + b ^ 2) = 0%R <-> a = 0%R /\ b = 0%R.
Proof.
  split.
  - intros H. apply sqrt_eq_0 in H; [| nra].
    split; nra.
  - intros (-> & ->). replace (0 ^ 2 + 0 ^ 2)%R with 0%R by ring. apply sqrt_0.
Qed.

(** The triangle inequality of the Euclidean norm. *)
Lemma euclid_triangle (a b c d : R) :
  (sqrt ((a + c) ^ 2 + (b + d) ^ 2)
   <= sqrt (a ^ 2 + b ^ 2) + sqrt (c ^ 2 + d ^ 2))%R.
Proof.
  set (u := sqrt (a ^ 2 + b ^ 2)). set (v := sqrt (c ^ 2 + d ^ 2)).
  assert (Hu : (0 <= u)%R) by apply sqrt_pos.
  assert (Hv : (0 <= v)%R) by apply sqrt_pos.
  assert (Hu2 : (u * u = a ^ 2 + b ^ 2)%R) by (apply sqrt_sqrt; nra).
  assert (Hv2 : (v * v = c ^ 2 + d ^ 2)%R) by (apply sqrt_sqrt; nra).
  clearbody u v.
  assert (Hcs : (a * c + b * d <= u * v)%R).
  { destruct (Rle_dec (a * c + b * d) 0) as [Hneg | Hpos]; [nra |].
    assert (Hsq : ((a * c + b * d) * (a * c + b * d) <= (u * v) * (u * v))%R).
    { replace ((u * v) * (u * v))%R with ((u * u) * (v * v))%R by ring.
      rewrite Hu2, Hv2.
      pose proof (pow2_ge_0 (a * d - b * c)). nra. }
    assert (Huv : (0 <= u * v)%R) by nra.
    apply Rnot_lt_le. intros Hlt.
    assert ((u * v) * (u * v) < (a * c + b * d) * (a * c + b * d))%R by nra.
    lra. }
  rewrite <- (sqrt_square (u + v)) by lra.
  apply sqrt_le_1_alt. nra.
Qed.

(** From frame [i] on, the distance covered is at least the straight line
    between the two positions. *)
Lemma path_at_least_chord (x y d : list R) (n : nat) :
  length x = n -> length y = n -> length d = n ->
  (forall i, (1 <= i < n)%nat -> distance_law x y d i) ->
  forall m i, (i + m < n)%nat ->
  exists di dj xi yi xj yj,
    d !! i = Some di /\ d !! (i + m)%nat = Some dj
    /\ x !! i = Some xi /\ y !! i = Some yi
    /\ x !! (i + m)%nat = Some xj /\ y !! (i + m)%nat = Some yj
    /\ (sqrt ((xj - xi) ^ 2 + (yj - yi) ^ 2) <= dj - di)%R.
Proof.
  intros Lx Ly Ld Hlaw. induction m as [| m IH]; intros i Hi.
  - rewrite Nat.add_0_r.
    destruct (lookup_lt_is_Some_2 d i) as [di Hdi]; [lia |].
    destruct (lookup_lt_is_Some_2 x i) as [xi Hxi]; [lia |].
    destruct (lookup_lt_is_Some_2 y i) as [yi Hyi]; [lia |].
    exists di, di, xi, yi, xi, yi. repeat (split; [assumption |]).
    replace ((xi - xi) ^ 2 + (yi - yi) ^ 2)%R with 0%R by ring.
    rewrite sqrt_0. lra.
  - destruct (IH i ltac:(lia)) as (di & dj & xi & yi & xj & yj
                                   & Hdi & Hdj & Hxi & Hyi & Hxj & Hyj & Hle).
    destruct (Hlaw (i + S m)%nat ltac:(lia))
      as (p & a & b & c & e & Hp & Ha & Hb & Hc & He & Hd).
    replace (i + S m - 1)%nat with (i + m)%nat in * by lia.
    assert (p = dj) by congruence. assert (b = xj) by congruence.
    assert (e = yj) by congruence. subst p b e.
    exists di, (dj + sqrt ((a - xj) ^ 2 + (c - yj) ^ 2))%R, xi, yi, a, c.
    repeat (split; [assumption |]).
    pose proof (euclid_triangle (xj - xi) (yj - yi) (a - xj) (c - yj)) as Ht.
    replace (xj - xi + (a - xj))%R with (a - xi)%R in Ht by ring.
    replace (yj - yi + (c - yj))%R with (c - yi)%R in Ht by ring.
    lra.
Qed.

(** X18. In a record of the load, between any two frames the cumulative
    distance grows by at least the straight-line distance between the two
    interpolated positions. *)
Theorem distance_at_least_straight_line session g data i j :
  load_and_synchronize_data session initial = Return g ->
  data ∈ all_interpolated_data g ->
  (i <= j < length (times g))%nat ->
  exists di dj xi yi xj yj,
    CumulativeDistance data !! i = Some di
    /\ CumulativeDistance data !! j = Some dj
    /\ X_interp data !! i = Some xi /\ Y_interp data !! i = Some yi
    /\ X_interp data !! j = Some xj /\ Y_interp data !! j = Some yj
    /\ (sqrt ((xj - xi) ^ 2 + (yj - yi) ^ 2) <= dj - di)%R.
Proof.
  intros Hg Hin Hij.
  destruct (loaded_record session g data Hg Hin) as (item & Hs & Hp).
  destruct (produced_aligned session (times g) item data
              (survivors_nonempty session item Hs) Hp)
    as (Lx & Ly & _ & Ld & _ & Hlaw).
  destruct (path_at_least_chord _ _ _ _ Lx Ly Ld Hlaw (j - i) i ltac:(lia))
    as (di & dj & xi & yi & xj & yj & H).
  replace (i + (j - i))%nat with j in H by lia.
  exists di, dj, xi, yi, xj, yj. exact H.
Qed.

(** X19. In a record of the load, the cumulative distance stays the same
    from one frame to the next exactly when the interpolated position
    does. *)
Theorem distance_still_iff_position_still session g data i di di1 xi xi1 yi yi1 :
  load_and_synchronize_data session initial = Return g ->
  data ∈ all_interpolated_data g ->
  (1 <= i)%nat ->
  CumulativeDistance data !! i = Some di ->
  CumulativeDistance data !! (i - 1)%nat = Some di1 ->
  X_interp data !! i = Some xi -> X_interp data !! (i - 1)%nat = Some xi1 ->
  Y_interp data !! i = Some yi -> Y_interp data !! (i - 1)%nat = Some yi1 ->
  di = di1 <-> xi = xi1 /\ yi = yi1.
Proof.
  intros Hg Hin Hi Hdi Hdi1 Hxi Hxi1 Hyi Hyi1.
  destruct (loaded_record session g data Hg Hin) as (item & Hs & Hp).
  destruct (produced_aligned session (times g) item data
              (survivors_nonempty session item Hs) Hp)
    as (_ & _ & _ & Ld & _ & Hlaw).
  pose proof (lookup_lt_Some _ _ _ Hdi) as Hlt. rewrite Ld in Hlt.
  destruct (Hlaw i ltac:(lia)) as (p & a & b & c & e & Hp' & Ha & Hb & Hc & He & Hd).
  assert (p = di1) by congruence. assert (a = xi) by congruence.
  assert (b = xi1) by congruence. assert (c = yi) by congruence.
  assert (e = yi1) by congruence. subst p a b c e.
  assert (Edi : di = (di1 + sqrt ((xi - xi1) ^ 2 + (yi - yi1) ^ 2))%R) by congruence.
  pose proof (sqrt_sum_squares_0 (xi - xi1) (yi - yi1)) as Hz.
  split.
  - intros E. assert (sqrt ((xi - xi1) ^ 2 + (yi - yi1) ^ 2) = 0%R) by lra.
    apply Hz in H. lra.
  - intros (Ex & Ey). assert (sqrt ((xi - xi1) ^ 2 + (yi - yi1) ^ 2) = 0%R)
      by (apply Hz; lra).
    lra.
Qed.

(** X20. The timeline of the load increases strictly, and when the
    duration is positive its last time stamp is within one step,
    [1 / FPS], of the duration. *)
Theorem timeline_increases_to_duration session g :
  load_and_synchronize_data session initial = Return g ->
  (forall i j t t', (i < j)%nat ->
     times g !! i = Some t -> times g !! j = Some t' -> (t < t')%R)
  /\ ((0 < total_seconds g)%R ->
      exists t, last (times g) = Some t
                /\ (total_seconds g - 1 / FPS <= t < total_seconds g)%R).
Proof.
  intros Hg. destruct (load_inv session g Hg) as (_ & _ & _ & _ & _ & Ht).
  set (T := total_seconds g) in *.
  assert (Hlook : forall i t, times g !! i = Some t -> t = (INR i / FPS)%R).
  { intros i t Hi. pose proof (lookup_lt_Some _ _ _ Hi) as Hlt.
    rewrite Ht in Hi, Hlt. rewrite arange_lookup in Hi by exact Hlt.
    injection Hi as <-. unfold FPS. field. }
  split.
  - intros i j t t' Hij Hi Hj.
    rewrite (Hlook i t Hi), (Hlook j t' Hj).
    apply lt_INR in Hij. unfold FPS. lra.
  - intros HT.
    assert (HN : length (times g) = Z.to_nat (Zceil (T * FPS))).
    { rewrite Ht, arange_length. f_equal. f_equal. unfold FPS. field. }
    pose proof (Zceil_bound (T * FPS)) as (Hlo & Hhi).
    assert (Hpos : (0 < Zceil (T * FPS))%Z).
    { apply lt_IZR. unfold FPS in *. lra. }
    rewrite last_lookup.
    destruct (lookup_lt_is_Some_2 (times g) (pred (length (times g)))) as [t Hl];
      [lia |].
    exists t. split; [exact Hl |].
    rewrite (Hlook _ t Hl).
    assert (E : INR (pred (length (times g))) = (IZR (Zceil (T * FPS)) - 1)%R).
    { rewrite INR_IZR_INZ, HN. rewrite <- minus_IZR. f_equal. lia. }
    rewrite E. unfold FPS in *. lra.
Qed.

End path.

(** ** Instances of the further properties *)

Lemma one_second_timeline session g :
  load_and_synchronize_data session initial = Return g ->
  max_duration session = 1000000000%Z ->
  length (times g) = 90%nat.
Proof.
  intros Hg Hmax. destruct (load_inv session g Hg) as (_ & _ & _ & _ & HT & Ht).
  rewrite Ht, arange_length, HT, Hmax. unfold Timedelta.scalar_total_seconds, FPS.
  change (1000000000 / 1000)%Z with 1000000%Z.
  rewrite (Zceil_eq 90); [reflexivity |]. split.
  - apply (Rlt_le_trans _ 90); [lra |]. apply Req_le. field.
  - apply Req_le. field.
Qed.

(** The replay of [demo_session] after its load. *)
Lemma demo_replay :
  exists g,
    load_and_synchronize_data demo_session initial = Return g
    /\ consistent g
    /\ length (times g) = 90%nat
    /\ length (all_interpolated_data g) = 4%nat
    /\ is_paused g = false /\ slider_active g = false.
Proof.
  destruct (load_returns demo_session demo_has_laps demo_has_survivors)
    as (g & Hg & _).
  destruct (load_consistent demo_session g Hg) as (Hc & Hlen).
  destruct (load_starts_flags demo_session g Hg) as (_ & Hp & Hs & _).
  exists g. split; [exact Hg |]. split; [exact Hc |].
  split; [apply (one_second_timeline demo_session g Hg); reflexivity |].
  split; [rewrite Hlen; reflexivity |]. split; assumption.
Qed.

Lemma nonempty_of_length {T : Type} (l : list T) (n : nat) :
  length l = S n -> l <> [].
Proof. intros H ->. discriminate. Qed.

Lemma load_starts_replay_witness :
  exists g,
    load_and_synchronize_data demo_session initial = Return g
    /\ consistent g /\ current_frame g = 0%Z.
Proof.
  destruct demo_replay as (g & Hg & _).
  destruct (load_starts_replay demo_session g Hg) as (Hc & _ & _ & Hf & _).
  exists g. auto.
Defined.

Lemma replay_stays_consistent_witness :
  exists g,
    load_and_synchronize_data demo_session initial = Return g
    /\ consistent (run [Tick 5; PauseClick; SliderMove 50; GhostClick;
                        PauseClick; Tick 6; ResetClick; Tick 7] g).
Proof.
  destruct demo_replay as (g & Hg & _).
  exists g. split; [exact Hg |].
  exact (proj1 (replay_stays_consistent demo_session g _ Hg)).
Defined.

Lemma playing_update_draws_witness :
  exists g g' d,
    consistent g /\ update 7 g = (g', Return (Some d))
    /\ length (dots d) = length (current_drivers_data g).
Proof.
  destruct demo_replay as (g & _ & Hc & Ht & _ & Hp & _).
  destruct (playing_update_draws g 7 Hc (nonempty_of_length _ _ Ht) Hp)
    as (g' & d & E & Hl & _).
  exists g, g', d. auto.
Defined.

Lemma playing_update_frame_witness :
  exists g,
    consistent g /\ (0 <= current_frame (update 7 g).1 < len_times g)%Z.
Proof.
  destruct demo_replay as (g & _ & Hc & Ht & _ & Hp & _).
  exists g. split; [exact Hc |].
  exact (proj1 (proj2 (proj2
           (playing_update_frame g 7 Hc (nonempty_of_length _ _ Ht) Hp)))).
Defined.

Lemma still_has_laps : notna (laps still_session) <> [].
Proof. discriminate. Qed.

Lemma still_has_survivors : survivors still_session <> [].
Proof. discriminate. Qed.

Lemma empty_timeline_witness :
  exists g,
    load_and_synchronize_data still_session initial = Return g
    /\ times g = []
    /\ update 0 g = (g, Raise ZeroDivisionError).
Proof.
  destruct (load_returns still_session still_has_laps still_has_survivors)
    as (g & Hg & _).
  destruct (empty_timeline still_session g 0 Hg) as (Ht & _ & Hu & _).
  - intros item s Hi Hs.
    change (survivors still_session)
      with [(demo_lap "VER" 71 (Return (Some [sample 0 3 4 0])), [sample 0 3 4 0])]
      in Hi.
    apply list_elem_of_singleton in Hi. subst item.
    apply list_elem_of_singleton in Hs. subst s. simpl. lia.
  - exists g. auto.
Defined.

Lemma playback_follows_counter_witness :
  exists g,
    consistent g
    /\ current_frame (ticks ([3; 4] ++ [95])%Z g) = (95 mod len_times g)%Z.
Proof.
  destruct demo_replay as (g & _ & Hc & Ht & _ & Hp & Hs).
  exists g. split; [exact Hc |].
  exact (playback_follows_counter [3; 4]%Z 95 g Hc (nonempty_of_length _ _ Ht) Hp Hs).
Defined.

Lemma pause_resume_round_trip_witness :
  pause_callback (ticks [3; 4; 5]%Z (pause_callback playing_at_2)) = playing_at_2.
Proof. apply (pause_resume_round_trip [3; 4; 5]%Z playing_at_2). reflexivity. Defined.

Lemma reset_holds_one_step_witness :
  exists g,
    consistent g
    /\ current_frame (update 41 (reset_callback g)).1 = 0%Z.
Proof.
  destruct demo_replay as (g & _ & Hc & Ht & _ & Hp & _).
  exists g. split; [exact Hc |].
  exact (proj1 (reset_holds_one_step g 41 42 Hc (nonempty_of_length _ _ Ht) Hp)).
Defined.


Lemma seek_is_monotone_witness :
  (current_frame (slider_update 20 playing_at_2)
   <= current_frame (slider_update 60 playing_at_2))%Z.
Proof. apply (seek_is_monotone 20 60 playing_at_2). lra. Defined.

Lemma ghost_button_switches_view_witness :
  exists g,
    consistent g
    /\ current_drivers_data (ghost_mode_callback (ghost_mode_callback g))
       = current_drivers_data g.
Proof.
  destruct demo_replay as (g & _ & Hc & _).
  exists g. split; [exact Hc |].
  exact (proj2 (proj2 (proj2 (proj2 (proj2 (ghost_button_switches_view g Hc)))))).
Defined.

Lemma max_speed_shown_witness :
  exists d,
    draw (ghost_view initial ver alo 1) = Return d /\ (0 <= speed_text d)%R.
Proof.
  destruct (draw_ghost_view 2 initial ver alo 1 ver_aligned alo_aligned)
    as (d & a & b & ms & Hd & _); [lia |].
  exists d. split; [exact Hd |].
  exact (proj1 (max_speed_shown _ d Hd)).
Defined.

Lemma roster_sorted_by_lap_time_witness :
  exists g a b ta tb,
    load_and_synchronize_data demo_session initial = Return g
    /\ all_interpolated_data g !! 0%nat = Some a
    /\ all_interpolated_data g !! 1%nat = Some b
    /\ LapTime a = Some ta /\ LapTime b = Some tb /\ (ta <= tb)%Z.
Proof.
  destruct demo_replay as (g & Hg & _ & _ & Hl & _).
  destruct (lookup_lt_is_Some_2 (all_interpolated_data g) 0) as [a Ha]; [lia |].
  destruct (lookup_lt_is_Some_2 (all_interpolated_data g) 1) as [b Hb]; [lia |].
  destruct (roster_sorted_by_lap_time demo_session g 0 1 a b Hg ltac:(lia) Ha Hb)
    as (ta & tb & H).
  exists g, a, b, ta, tb. tauto.
Defined.


Lemma load_raises_only_two_witness :
  exists e,
    load_and_synchronize_data empty_session initial = Raise e
    /\ (e = ValueError "No valid laps found in session data."
        \/ e = ValueError "No valid telemetry data found for the top drivers.").
Proof.
  eexists. split; [reflexivity |].
  apply (load_raises_only_two empty_session). reflexivity.
Defined.

Lemma resampling_exact_at_samples_witness :
  exists x_interp y_interp speed_interp,
    interpolate_telemetry (straight 10) [Timedelta.total_seconds 1000000000%Z]
    = Return (x_interp, y_interp, speed_interp)
    /\ x_interp !! 0%nat = Some 10%R.
Proof.
  destruct (resampling_exact_at_samples (straight 10)
              [Timedelta.total_seconds 1000000000%Z] 0 1
              (sample 1000000000%Z 10 0 100))
    as (xs & ys & ss & E & Hx & _).
  - repeat constructor.
  - reflexivity.
  - reflexivity.
  - exists xs, ys, ss. split; [exact E | exact Hx].
Defined.

Lemma uneven_has_laps : notna (laps uneven_session) <> [].
Proof. discriminate. Qed.

Lemma uneven_has_survivors : survivors uneven_session <> [].
Proof. discriminate. Qed.

Lemma frozen_after_last_sample_witness :
  exists g data,
    load_and_synchronize_data uneven_session initial = Return g
    /\ all_interpolated_data g !! 1%nat = Some data
    /\ X_interp data !! 1%nat = Some 3%R.
Proof.
  destruct (load_returns uneven_session uneven_has_laps uneven_has_survivors)
    as (g & Hg & _).
  destruct (load_consistent uneven_session g Hg) as (_ & Hlen).
  pose proof (one_second_timeline uneven_session g Hg eq_refl) as H90.
  destruct (load_inv uneven_session g Hg) as (_ & _ & _ & _ & _ & Ht).
  destruct (lookup_lt_is_Some_2 (all_interpolated_data g) 1) as [data Hd];
    [rewrite Hlen; simpl; lia |].
  assert (Hi : times g !! 1%nat = Some (0 + INR 1 * (1 / FPS))%R).
  { rewrite Ht. apply arange_lookup. rewrite <- Ht, H90. lia. }
  exists g, data. split; [exact Hg |]. split; [exact Hd |].
  apply (frozen_after_last_sample uneven_session g 1
           (demo_lap "ALO" 72 (Return (Some [sample 0 3 4 50])), [sample 0 3 4 50])
           data (sample 0 3 4 50) 1 (0 + INR 1 * (1 / FPS))%R Hg);
    try reflexivity; try assumption.
  unfold Timedelta.total_seconds, FPS. simpl. lra.
Defined.

Lemma demo_first_record :
  exists g data,
    load_and_synchronize_data demo_session initial = Return g
    /\ data ∈ all_interpolated_data g
    /\ aligned 90 data.
Proof.
  destruct demo_replay as (g & Hg & (Hal & _) & H90 & Hl & _).
  destruct (all_interpolated_data g) as [| data ds] eqn:E; [discriminate |].
  exists g, data. split; [exact Hg |]. rewrite E. split; [left |].
  rewrite H90 in Hal. now apply Forall_cons in Hal.
Qed.

Lemma distance_at_least_straight_line_witness :
  exists g data di dj,
    load_and_synchronize_data demo_session initial = Return g
    /\ CumulativeDistance data !! 0%nat = Some di
    /\ CumulativeDistance data !! 1%nat = Some dj
    /\ (0 <= dj - di)%R.
Proof.
  destruct demo_first_record as (g & data & Hg & Hin & _).
  destruct demo_replay as (g' & Hg' & _ & H90 & _).
  assert (g' = g) by congruence. subst g'.
  destruct (distance_at_least_straight_line demo_session g data 0 1 Hg Hin)
    as (di & dj & xi & yi & xj & yj & Hdi & Hdj & _ & _ & _ & _ & Hle);
    [rewrite H90; lia |].
  exists g, data, di, dj. repeat (split; [assumption |]).
  pose proof (sqrt_pos ((xj - xi) ^ 2 + (yj - yi) ^ 2)). lra.
Defined.

Lemma distance_still_iff_position_still_witness :
  exists g data di di1 xi xi1 yi yi1,
    load_and_synchronize_data demo_session initial = Return g
    /\ CumulativeDistance data !! 1%nat = Some di
    /\ CumulativeDistance data !! 0%nat = Some di1
    /\ X_interp data !! 1%nat = Some xi /\ X_interp data !! 0%nat = Some xi1
    /\ Y_interp data !! 1%nat = Some yi /\ Y_interp data !! 0%nat = Some yi1
    /\ (di = di1 <-> xi = xi1 /\ yi = yi1).
Proof.
  destruct demo_first_record as (g & data & Hg & Hin & (Lx & Ly & _ & Ld)).
  destruct (lookup_lt_is_Some_2 (CumulativeDistance data) 1) as [di Hdi]; [lia |].
  destruct (lookup_lt_is_Some_2 (CumulativeDistance data) 0) as [di1 Hdi1]; [lia |].
  destruct (lookup_lt_is_Some_2 (X_interp data) 1) as [xi Hxi]; [lia |].
  destruct (lookup_lt_is_Some_2 (X_interp data) 0) as [xi1 Hxi1]; [lia |].
  destruct (lookup_lt_is_Some_2 (Y_interp data) 1) as [yi Hyi]; [lia |].
  destruct (lookup_lt_is_Some_2 (Y_interp data) 0) as [yi1 Hyi1]; [lia |].
  exists g, data, di, di1, xi, xi1, yi, yi1.
  repeat (split; [assumption |]).
  apply (distance_still_iff_position_still demo_session g data 1
           di di1 xi xi1 yi yi1 Hg Hin); try assumption. lia.
Defined.

Lemma timeline_increases_to_duration_witness :
  exists g,
    load_and_synchronize_data demo_session initial = Return g
    /\ forall i j t t', (i < j)%nat ->
         times g !! i = Some t -> times g !! j = Some t' -> (t < t')%R.
Proof.
  destruct demo_replay as (g & Hg & _).
  exists g. split; [exact Hg |].
  exact (proj1 (timeline_increases_to_duration demo_session g Hg)).
Defined.
